(** * Release promotion script of the emsdk repository

    A shallow embedding of [scripts/create_release.py]: the version parser
    [version_to_list], the computation of the next version, the branch name,
    the update of the release registry, and [main] with its effects on the
    repository written as an exception-and-state monad.

    Python values are modelled as follows.
    - [str] and [bytes] are [string]; a character of a [str] is a code point
      below 256 and a byte of a [bytes] is an [ascii].  Strings with code
      points from 256 on are outside the model.
    - [int] is [Z] (Python integers are unbounded; the interpreter's optional
      limit on the number of digits of a conversion is not modelled).
    - a [dict] with string keys and string values is an association list in
      insertion order; a Python dict never holds a key twice, which is the
      predicate [dict_wf].
    - a raised exception is the [Raise] case of [result]. *)

From Stdlib Require Import ZArith List String Ascii Bool Lia.
From Stdlib Require Import DecimalString DecimalPos.
From Stdlib Require Import Sorting.Sorted Sorting.Permutation.
Import ListNotations.

Local Open Scope string_scope.
Local Open Scope Z_scope.

(** ** Exceptions *)

Inductive exn : Type :=
| ValueError          (* int() of a malformed literal *)
| KeyError            (* missing dict key *)
| IndexError          (* index into an empty list *)
| CalledProcessError  (* a subprocess returned a non-zero status *)
| RegistryLoadError   (* emsdk.load_releases_info() failed *)
| ResolverError       (* emsdk.get_emscripten_releases_tot() failed *)
| SystemExit (code : Z).

Inductive result (A : Type) : Type :=
| Ok (a : A)
| Raise (e : exn).
Arguments Ok {A} a.
Arguments Raise {A} e.

Definition rbind {A B} (r : result A) (k : A -> result B) : result B :=
  match r with
  | Ok a => k a
  | Raise e => Raise e
  end.

(** [[f(x) for x in l]] where [f] may raise: the first failure, from the
    left, ends the comprehension. *)
Fixpoint comprehension {A B} (f : A -> result B) (l : list A) : result (list B) :=
  match l with
  | [] => Ok []
  | x :: l' =>
      rbind (f x) (fun y => rbind (comprehension f l') (fun ys => Ok (y :: ys)))
  end.

(** ** Characters and strings *)

Definition is_digit (c : ascii) : bool :=
  let n := nat_of_ascii c in (48 <=? n)%nat && (n <=? 57)%nat.

Definition digit_value (c : ascii) : Z := Z.of_nat (nat_of_ascii c) - 48.

(** White space of [bytes.strip()]: space, tab, newline, carriage return,
    vertical tab and form feed. *)
Definition is_bytes_space (c : ascii) : bool :=
  let n := nat_of_ascii c in
  ((9 <=? n)%nat && (n <=? 13)%nat) || (n =? 32)%nat.

(** White space that [int()] strips from both ends of a [str]: the white
    space of the C locale and, of the code points from 128 to 255, the two
    that Python counts as space, 0x85 and 0xA0.  The separators 0x1c to 0x1f
    are not stripped: [int()] rejects a string that holds one. *)
Definition is_str_space (c : ascii) : bool :=
  let n := nat_of_ascii c in
  ((9 <=? n)%nat && (n <=? 13)%nat) || (n =? 32)%nat || (n =? 133)%nat || (n =? 160)%nat.

Fixpoint lstrip (sp : ascii -> bool) (s : string) : string :=
  match s with
  | EmptyString => EmptyString
  | String c s' => if sp c then lstrip sp s' else s
  end.

(** [rstrip] keeps a character when it is not white space or when
    something remains after it. *)
Fixpoint rstrip (sp : ascii -> bool) (s : string) : string :=
  match s with
  | EmptyString => EmptyString
  | String c s' =>
      match rstrip sp s' with
      | EmptyString => if sp c then EmptyString else String c EmptyString
      | r => String c r
      end
  end.

Definition strip (sp : ascii -> bool) (s : string) : string :=
  rstrip sp (lstrip sp s).

Definition is_empty (s : string) : bool :=
  match s with EmptyString => true | _ => false end.

(** ** [int(str)] and [str(int)] *)

(** The digits of a decimal literal after its first digit: digits, with a
    single underscore allowed between two digits. *)
Fixpoint int_digits (acc : Z) (s : string) : result Z :=
  match s with
  | EmptyString => Ok acc
  | String c s' =>
      if is_digit c then int_digits (10 * acc + digit_value c) s'
      else if Ascii.eqb c "_"
      then match s' with
           | String d s'' =>
               if is_digit d then int_digits (10 * acc + digit_value d) s''
               else Raise ValueError
           | EmptyString => Raise ValueError
           end
      else Raise ValueError
  end.

Definition int_unsigned (s : string) : result Z :=
  match s with
  | String c s' => if is_digit c then int_digits (digit_value c) s' else Raise ValueError
  | EmptyString => Raise ValueError
  end.

(** [int(s)] in base ten: surrounding white space, an optional sign, then
    the digits. *)
Definition int (s : string) : result Z :=
  match strip is_str_space s with
  | String "+" r => int_unsigned r
  | String "-" r => rbind (int_unsigned r) (fun n => Ok (- n))
  | t => int_unsigned t
  end.

(** [str(n)]: the decimal digits, after a minus sign for a negative one. *)
Definition str (n : Z) : string := NilZero.string_of_int (Z.to_int n).

(** [sep.join(parts)] *)
Fixpoint join (sep : string) (parts : list string) : string :=
  match parts with
  | [] => ""
  | [p] => p
  | p :: rest => p ++ sep ++ join sep rest
  end.

(** ** [version_to_list] *)

(** The character class [[.-]]. *)
Definition is_sep (c : ascii) : bool := Ascii.eqb c "." || Ascii.eqb c "-".

(** [re.split('[.-]', s)]: the pieces between the separators; [n]
    separators give [n + 1] pieces, empty ones included. *)
Fixpoint re_split (s : string) : list string :=
  match s with
  | EmptyString => [EmptyString]
  | String c s' =>
      if is_sep c then EmptyString :: re_split s'
      else match re_split s' with
           | p :: ps => String c p :: ps
           | [] => [String c EmptyString]
           end
  end.

Definition version_to_list (version_string : string) : result (list Z) :=
  comprehension int (firstn 3 (re_split version_string)).

(** ** The next version and the names derived from it *)

(** [new_version[-1] += 1]: one is added to the last element of the list;
    on an empty list the index is out of range. *)
Fixpoint incr_last (l : list Z) : result (list Z) :=
  match l with
  | [] => Raise IndexError
  | [x] => Ok [x + 1]
  | x :: l' => rbind (incr_last l') (fun r => Ok (x :: r))
  end.

(** [f"version_{'_'.join(str(part) for part in new_version)}"] *)
Definition branch_name_of (new_version : list Z) : string :=
  "version_" ++ join "_" (map str new_version).

(** ['.'.join(str(part) for part in new_version)] *)
Definition version_string_of (new_version : list Z) : string :=
  join "." (map str new_version).

(** [args[0] if args else emsdk.get_emscripten_releases_tot()]: the resolver
    is asked only when no argument was given. *)
Definition new_hash_of (args : list string) (tip_of_tree : result string) : result string :=
  match args with
  | a :: _ => Ok a
  | [] => tip_of_tree
  end.

(** ** Dictionaries *)

Definition dict : Type := list (string * string).

Definition keys (d : dict) : list string := map fst d.

Definition dict_wf (d : dict) : Prop := NoDup (keys d).

(** [d[k]] *)
Fixpoint dict_get (k : string) (d : dict) : result string :=
  match d with
  | [] => Raise KeyError
  | (k', v) :: d' => if String.eqb k k' then Ok v else dict_get k d'
  end.

(** [d[k] = v]: an existing key keeps its place and takes the new value, a
    new key goes to the end. *)
Fixpoint dict_set (k v : string) (d : dict) : dict :=
  match d with
  | [] => [(k, v)]
  | (k', v') :: d' =>
      if String.eqb k k' then (k', v) :: d' else (k', v') :: dict_set k v d'
  end.

(** [OrderedDict(pairs)]: the pairs are stored one after the other. *)
Definition OrderedDict (pairs : list (string * string)) : dict :=
  fold_left (fun d kv => dict_set (fst kv) (snd kv) d) pairs [].

(** ** Sorting by version *)

(** [a < b] on lists of integers: the first position where they differ
    decides; a proper prefix is smaller. *)
Fixpoint list_lt (a b : list Z) : bool :=
  match a, b with
  | [], [] => false
  | [], _ :: _ => true
  | _ :: _, [] => false
  | x :: a', y :: b' =>
      if x <? y then true else if y <? x then false else list_lt a' b'
  end.

Section KeyedSort.
Context {A : Type}.

(** [list.sort] is stable: elements with equal keys keep their order.
    The stable sort of a list is unique, and it is computed here by
    insertion: an element goes before the first one whose key is not
    smaller than its own, so it stays ahead of the equal keys that
    followed it. *)
Fixpoint insert_keyed (x : list Z * A) (l : list (list Z * A)) : list (list Z * A) :=
  match l with
  | [] => [x]
  | y :: l' => if list_lt (fst y) (fst x) then y :: insert_keyed x l' else x :: l
  end.

Fixpoint sort_keyed (l : list (list Z * A)) : list (list Z * A) :=
  match l with
  | [] => []
  | x :: l' => insert_keyed x (sort_keyed l')
  end.

(** [l.sort(key=key)]: the keys are computed first, from left to right,
    and an exception from [key] leaves the list as it was. *)
Definition sort_by (key : A -> result (list Z)) (l : list A) : result (list A) :=
  rbind (comprehension key l) (fun ks => Ok (map snd (sort_keyed (combine ks l)))).
End KeyedSort.

(** [lambda pair: version_to_list(pair[0])] *)
Definition pair_key (pair : string * string) : result (list Z) :=
  version_to_list (fst pair).

(** Lines 38 to 41 of the script:
    [[
    releases = list(d.items())
    releases.sort(key=lambda pair: version_to_list(pair[0]))
    OrderedDict(reversed(releases))
    ]] *)
Definition sort_releases (d : dict) : result dict :=
  rbind (sort_by pair_key d) (fun releases => Ok (OrderedDict (rev releases))).

(** ** The release registry *)

Record ReleaseInfo : Type := mkReleaseInfo {
  aliases : dict;
  releases : dict
}.

(** Lines 27 and 28: the version after [aliases['latest']]. *)
Definition next_version (release_info : ReleaseInfo) : result (list Z) :=
  rbind (dict_get "latest" (aliases release_info)) (fun latest =>
  rbind (version_to_list latest) incr_last).

(** Line 37: [release_info['releases'][new_version] = new_hash]. *)
Definition add_release (new_version new_hash : string) (ri : ReleaseInfo) : ReleaseInfo :=
  mkReleaseInfo (aliases ri) (dict_set new_version new_hash (releases ri)).

(** Line 42: [release_info['aliases']['latest'] = new_version]. *)
Definition set_latest (new_version : string) (ri : ReleaseInfo) : ReleaseInfo :=
  mkReleaseInfo (dict_set "latest" new_version (aliases ri)) (releases ri).

(** Lines 37 to 42 on the registry. *)
Definition record_release (new_version new_hash : string) (ri : ReleaseInfo)
  : result ReleaseInfo :=
  let ri1 := add_release new_version new_hash ri in
  rbind (sort_releases (releases ri1)) (fun sorted =>
  Ok (set_latest new_version (mkReleaseInfo (aliases ri1) sorted))).

(** The registry after a promotion that records [new_hash]: lines 27, 28,
    34 and 37 to 42. *)
Definition promote (new_hash : string) (ri : ReleaseInfo) : result ReleaseInfo :=
  rbind (next_version ri) (fun new_version =>
  record_release (version_string_of new_version) new_hash ri).

(** ** The repository and the script's collaborators *)

(** What the script reads and changes: the registry file and the files
    generated from it, both as far as git tracks them, the branches of the
    git repository, its index and its commits, what was printed, and the
    registry held in memory ([None] until it is loaded).  A file that the
    hook creates and git does not track is not part of the state. *)
Record State : Type := mkState {
  tags_file : string;                 (* emscripten-releases-tags.json *)
  bazel_workspace : string;           (* tracked files update_bazel_workspace.sh rewrites *)
  branches : list string;
  HEAD : string;                      (* the branch checked out *)
  index : option (string * string);   (* staged: registry, tracked generated files *)
  commits : list (string * string * option (string * string));
                                      (* branch, message, content; newest first *)
  stdout : list string;               (* printed lines, oldest first *)
  release_info : option ReleaseInfo
}.

(** The answers of the collaborators that are not part of the script.  An
    absent answer is a failure of the collaborator. *)
Record Env : Type := mkEnv {
  (* output of `git status --porcelain` *)
  git_status_porcelain : option string;
  (* emsdk.load_releases_info(), from the content of the registry file *)
  load_releases_info : string -> option ReleaseInfo;
  (* emsdk.get_emscripten_releases_tot() *)
  get_emscripten_releases_tot : option string;
  (* json.dumps(release_info, indent=2) *)
  json_dumps : ReleaseInfo -> string;
  (* update_bazel_workspace.sh, from the content of the registry file *)
  update_bazel_workspace : string -> option string;
  (* whether `git commit` returns status zero *)
  git_commit_ok : bool
}.

(** Computations that read and change the state and may raise. *)
Definition M (A : Type) : Type := State -> result A * State.

Definition ret {A} (a : A) : M A := fun st => (Ok a, st).

Definition bind {A B} (c : M A) (k : A -> M B) : M B :=
  fun st =>
    match c st with
    | (Ok a, st') => k a st'
    | (Raise e, st') => (Raise e, st')
    end.

Definition raise {A} (e : exn) : M A := fun st => (Raise e, st).

Definition lift {A} (r : result A) : M A := fun st => (r, st).

Definition of_option {A} (e : exn) (o : option A) : M A :=
  match o with
  | Some a => ret a
  | None => raise e
  end.

Definition modify (f : State -> State) : M unit := fun st => (Ok tt, f st).

Definition get : M State := fun st => (Ok st, st).

Declare Scope script_scope.
Delimit Scope script_scope with script.
Notation "x <- c ;; k" := (bind c (fun x => k))
  (at level 100, c at next level, right associativity) : script_scope.
Notation "c ;; k" := (bind c (fun _ => k))
  (at level 100, right associativity) : script_scope.

Definition newline : string := String (ascii_of_nat 10) EmptyString.

Section Effects.
Variable env : Env.

Definition print (line : string) : M unit :=
  modify (fun st =>
    mkState (tags_file st) (bazel_workspace st) (branches st) (HEAD st)
            (index st) (commits st) (stdout st ++ [line]) (release_info st)).

(** [sys.exit(code)] *)
Definition sys_exit {A} (code : Z) : M A := raise (SystemExit code).

(** [subprocess.check_output(['git', 'status', '--porcelain'])] *)
Definition git_status : M string :=
  of_option CalledProcessError (git_status_porcelain env).

(** [git checkout -b name]: refused when the branch exists.  The other
    refusals of git (a ref below the name, a repository that is locked) are
    not modelled: a run that succeeds here is a run on which git made no
    such refusal. *)
Definition git_checkout_b (name : string) : M unit :=
  fun st =>
    if existsb (String.eqb name) (branches st)
    then (Raise CalledProcessError, st)
    else (Ok tt,
          mkState (tags_file st) (bazel_workspace st) (name :: branches st) name
                  (index st) (commits st) (stdout st) (release_info st)).

(** The in-memory registry. *)
Definition set_release_info (ri : ReleaseInfo) : M unit :=
  modify (fun st =>
    mkState (tags_file st) (bazel_workspace st) (branches st) (HEAD st)
            (index st) (commits st) (stdout st) (Some ri)).

(** Modelled from the spec: [emsdk.load_releases_info()] lives in
    [emsdk.py], which is not among the sources.  It parses the registry
    file, and a registry that cannot be parsed is a [RegistryLoadError];
    what it returns for a file is the environment's [load_releases_info]. *)
Definition emsdk_load_releases_info : M ReleaseInfo :=
  (st <- get ;;
   ri <- of_option RegistryLoadError (load_releases_info env (tags_file st)) ;;
   set_release_info ri ;;
   ret ri)%script.

(** Modelled from the spec: [emsdk.get_emscripten_releases_tot()], also of
    [emsdk.py], takes no argument and returns the provenance identifier of
    the tip of tree; its failure is fatal. *)
Definition emsdk_get_emscripten_releases_tot : result string :=
  match get_emscripten_releases_tot env with
  | Some h => Ok h
  | None => Raise ResolverError
  end.

(** [[
    with open(..., 'w') as f:
      f.write(json.dumps(release_info, indent=2))
      f.write('\n')
    ]] *)
Definition write_tags_file (ri : ReleaseInfo) : M unit :=
  modify (fun st =>
    mkState (json_dumps env ri ++ newline) (bazel_workspace st) (branches st)
            (HEAD st) (index st) (commits st) (stdout st) (release_info st)).

Definition run_update_bazel_workspace : M unit :=
  (st <- get ;;
   generated <- of_option CalledProcessError
                  (update_bazel_workspace env (tags_file st)) ;;
   modify (fun st =>
     mkState (tags_file st) generated (branches st) (HEAD st)
             (index st) (commits st) (stdout st) (release_info st)))%script.

(** [git add -u .]: the tracked files are staged as they are now, and
    files git does not track are left out.  A failure of the command is not
    modelled. *)
Definition git_add_u : M unit :=
  modify (fun st =>
    mkState (tags_file st) (bazel_workspace st) (branches st) (HEAD st)
            (Some (tags_file st, bazel_workspace st)) (commits st) (stdout st)
            (release_info st)).

(** [git commit -m message] *)
Definition git_commit (message : string) : M unit :=
  if git_commit_ok env
  then modify (fun st =>
    mkState (tags_file st) (bazel_workspace st) (branches st) (HEAD st)
            (index st) ((HEAD st, message, index st) :: commits st) (stdout st)
            (release_info st))
  else raise CalledProcessError.

(** ** [main] *)

Definition main (args : list string) : M Z :=
  (out <- git_status ;;
   if negb (is_empty (strip is_bytes_space out)) then
     print "tree is not clean" ;;
     sys_exit 1
   else
     release_info <- emsdk_load_releases_info ;;
     new_version <- lift (next_version release_info) ;;
     let branch_name := branch_name_of new_version in
     git_checkout_b branch_name ;;
     let new_version := version_string_of new_version in
     new_hash <- lift (new_hash_of args emsdk_get_emscripten_releases_tot) ;;
     print ("Creating new release: " ++ new_version ++ " -> " ++ new_hash) ;;
     let release_info := add_release new_version new_hash release_info in
     set_release_info release_info ;;
     releases <- lift (sort_releases (releases release_info)) ;;
     let release_info :=
       set_latest new_version (mkReleaseInfo (aliases release_info) releases) in
     set_release_info release_info ;;
     write_tags_file release_info ;;
     run_update_bazel_workspace ;;
     git_add_u ;;
     git_commit new_version ;;
     print ("New relase created in branch: `" ++ branch_name ++ "`") ;;
     ret 0)%script.

(** [sys.exit(main(sys.argv[1:]))]: the status the process ends with.  An
    exception that nothing catches ends the interpreter with status one. *)
Definition exit_code (r : result Z) : Z :=
  match r with
  | Ok code => code
  | Raise (SystemExit code) => code
  | Raise _ => 1
  end.
End Effects.

(** ** Predicates of the statements *)

Fixpoint all_digits (s : string) : bool :=
  match s with
  | EmptyString => true
  | String c s' => is_digit c && all_digits s'
  end.

Fixpoint no_sep (s : string) : bool :=
  match s with
  | EmptyString => true
  | String c s' => negb (is_sep c) && no_sep s'
  end.

(** The number of periods and hyphens of a string. *)
Fixpoint count_sep (s : string) : nat :=
  match s with
  | EmptyString => O
  | String c s' => if is_sep c then S (count_sep s') else count_sep s'
  end.

(** The version lists of the keys of a dict, in its order. *)
Definition versions_of (d : dict) : result (list (list Z)) :=
  comprehension pair_key d.

(** No entry is below the one after it. *)
Fixpoint descending (vs : list (list Z)) : bool :=
  match vs with
  | a :: (b :: _) as rest => negb (list_lt a b) && descending rest
  | _ => true
  end.

(** Every entry is above the one after it. *)
Fixpoint strictly_descending (vs : list (list Z)) : bool :=
  match vs with
  | a :: (b :: _) as rest => list_lt b a && strictly_descending rest
  | _ => true
  end.

(** The invariant of the registry: the value of every alias is a key of
    [releases]. *)
Definition aliases_resolve (ri : ReleaseInfo) : bool :=
  forallb (fun a => existsb (String.eqb (snd a)) (keys (releases ri))) (aliases ri).

(** Orders on keyed elements: [asc x y] when [y] is not below [x], and
    [above x y] when [x] is above [y]. *)
Definition asc {A} (x y : list Z * A) : Prop := list_lt (fst y) (fst x) = false.

Definition above {A} (x y : list Z * A) : Prop := list_lt (fst y) (fst x) = true.

(** The state a successful run of [main] ends in, from the state it
    started in, the new version, the provenance, the registry that was
    written and the files the hook generated. *)
Definition promoted_state (env : Env) (st : State) (new_version : list Z)
    (new_hash : string) (ri : ReleaseInfo) (generated : string) : State :=
  let branch_name := branch_name_of new_version in
  let version := version_string_of new_version in
  let file := json_dumps env ri ++ newline in
  mkState file generated (branch_name :: branches st) branch_name
          (Some (file, generated))
          ((branch_name, version, Some (file, generated)) :: commits st)
          ((stdout st ++ ["Creating new release: " ++ version ++ " -> " ++ new_hash])
             ++ ["New relase created in branch: `" ++ branch_name ++ "`"])
          (Some ri).

(** ** An environment for the examples *)

Definition quote : string := String (ascii_of_nat 34) EmptyString.

Definition json_string (s : string) : string := quote ++ s ++ quote.

Definition json_dict (d : dict) : string :=
  match d with
  | [] => "{}"
  | _ =>
      "{" ++ newline
      ++ join ("," ++ newline)
           (map (fun kv => "    " ++ json_string (fst kv) ++ ": " ++ json_string (snd kv)) d)
      ++ newline ++ "  }"
  end.

(** The text of [json.dumps(release_info, indent=2)] for keys and values
    that need no escaping. *)
Definition json_dumps_plain (ri : ReleaseInfo) : string :=
  "{" ++ newline
  ++ "  " ++ json_string "aliases" ++ ": " ++ json_dict (aliases ri) ++ "," ++ newline
  ++ "  " ++ json_string "releases" ++ ": " ++ json_dict (releases ri) ++ newline
  ++ "}".

(** A clean tree whose registry file loads as [ri]. *)
Definition demo_env (ri : ReleaseInfo) : Env :=
  mkEnv (Some EmptyString) (fun _ => Some ri) (Some "0123abcd") json_dumps_plain
        (fun file => Some ("# generated from " ++ file)) true.

Definition demo_state (ri : ReleaseInfo) : State :=
  mkState (json_dumps_plain ri ++ newline) "" ["main"] "main" None [] [] None.

Definition registry_1_0_0 : ReleaseInfo :=
  mkReleaseInfo [("latest", "1.0.0")] [("1.0.0", "abc")].

Definition registry_1_0_1 : ReleaseInfo :=
  mkReleaseInfo [("latest", "1.0.1")] [("1.0.1", "def"); ("1.0.0", "abc")].

(** A registry with two keys of the same version list. *)
Definition registry_asserts : ReleaseInfo :=
  mkReleaseInfo [("latest", "1.0.0")] [("1.0.0", "abc"); ("1.0.0-asserts", "abd")].

(** ** Further predicates of the statements *)

(** Every hyphen of a string written as a period. *)
Fixpoint hyphens_as_periods (s : string) : string :=
  match s with
  | EmptyString => EmptyString
  | String c s' => String (if is_sep c then "."%char else c) (hyphens_as_periods s')
  end.

(** A registry with a release key that is not a version. *)
Definition registry_tot : ReleaseInfo :=
  mkReleaseInfo [("latest", "1.0.0")] [("1.0.0", "abc"); ("tot", "abd")].

(** A registry with a second alias. *)
Definition registry_stable : ReleaseInfo :=
  mkReleaseInfo [("latest", "1.0.0"); ("stable", "0.9.0")]
                [("1.0.0", "abc"); ("0.9.0", "aaa")].

(** The state once the registry [ri] is loaded into memory. *)
Definition loaded (st : State) (ri : ReleaseInfo) : State :=
  mkState (tags_file st) (bazel_workspace st) (branches st) (HEAD st)
          (index st) (commits st) (stdout st) (Some ri).

(** The state when [main] has created the branch of [new_version], printed
    its first message and added the release to the registry in memory, and
    nothing more. *)
Definition branched (st : State) (new_version : list Z) (new_hash : string)
    (ri : ReleaseInfo) : State :=
  let branch_name := branch_name_of new_version in
  let version := version_string_of new_version in
  mkState (tags_file st) (bazel_workspace st) (branch_name :: branches st) branch_name
          (index st) (commits st)
          (stdout st ++ ["Creating new release: " ++ version ++ " -> " ++ new_hash])
          (Some (add_release version new_hash ri)).

(** * The packaging script [scripts/update_python.py]

    The script drives external programs and the file system.  What it
    attempts is recorded, in order, as a list of events; what the programs
    and the file system answer is read from a [Host], whose answers may
    depend on the events so far. *)

Module UpdatePython.

Inductive perr : Type :=
| UnboundLocalError   (* a local variable read before any assignment *)
| TypeError           (* os.path.join on None *)
| OSError             (* a file-system, network or process-start failure *)
| AssertionError
| CalledProcessError. (* check_call on a non-zero status *)

Inductive presult (A : Type) : Type :=
| POk (a : A)
| PRaise (e : perr).
Arguments POk {A} a.
Arguments PRaise {A} e.

Inductive event : Type :=
| Call (argv : list string) (cwd : option string)
       (env : option (list (string * string)))
    (* a subprocess; [env] is absent when the environment is inherited, and
       otherwise holds what was added to a copy of it *)
| Putenv (name value : string)          (* os.environ[name] = value *)
| Mkdir (path : string)
| Remove (path : string)
| Rmtree (path : string)
| Rename (src dst : string)
| Move (src dst : string)
| Urlretrieve (url filename : string)
| Print (line : string).

Record Host : Type := mkHost {
  sys_platform : string;
  platform_machine : string;
  cpu_count : Z;
  getenv_ProgramFiles : option string;
  os_path_join : list string -> string;
  os_path_abspath : string -> string;
  os_path_exists : list event -> string -> bool;
  os_path_isfile : list event -> string -> bool;
  os_path_isdir : list event -> string -> bool;
  glob_glob : list event -> string -> list string;
  (* the status a subprocess returns, or nothing when it cannot start *)
  spawn : list event -> list string -> option string -> option Z;
  (* whether a file-system or network operation raises *)
  fails : list event -> event -> bool
}.

(** ** Module-level constants *)

(** [s.split(sep)] for a separator of one character. *)
Fixpoint split_char (sep : ascii) (s : string) : list string :=
  match s with
  | EmptyString => [EmptyString]
  | String c s' =>
      if Ascii.eqb c sep then EmptyString :: split_char sep s'
      else match split_char sep s' with
           | p :: ps => String c p :: ps
           | [] => [String c EmptyString]
           end
  end.

(** [s.replace(c, '')] *)
Fixpoint remove_char (c : ascii) (s : string) : string :=
  match s with
  | EmptyString => EmptyString
  | String d s' => if Ascii.eqb d c then remove_char c s' else String d (remove_char c s')
  end.

Definition version : string := "3.9.2".
Definition major_minor_version : string := join "." (firstn 2 (split_char "." version)).
Definition base : string := "https://www.python.org/ftp/python/" ++ version ++ "/".
Definition revision : string := "1".
Definition pywin32_version : string := "227".
Definition pywin32_base : string :=
  "https://github.com/mhammond/pywin32/releases/download/b" ++ pywin32_version ++ "/".
Definition upload_base : string := "gs://webassembly/emscripten-releases-builds/deps/".

(** ** Computations *)

Definition P (A : Type) : Type := list event -> presult A * list event.

Definition pret {A} (a : A) : P A := fun tr => (POk a, tr).

Definition pbind {A B} (c : P A) (k : A -> P B) : P B :=
  fun tr =>
    match c tr with
    | (POk a, tr') => k a tr'
    | (PRaise e, tr') => (PRaise e, tr')
    end.

Definition praise {A} (e : perr) : P A := fun tr => (PRaise e, tr).

(** [try: body except Exception: pass] *)
Definition try_pass (body : P unit) : P unit :=
  fun tr =>
    match body tr with
    | (POk tt, tr') => (POk tt, tr')
    | (PRaise _, tr') => (POk tt, tr')
    end.

(** Reading a local variable that may not have been assigned. *)
Definition local {A} (x : option A) : P A :=
  match x with
  | Some a => pret a
  | None => praise UnboundLocalError
  end.

Declare Scope py_scope.
Delimit Scope py_scope with py.
Notation "x <- c ;; k" := (pbind c (fun x => k))
  (at level 100, c at next level, right associativity) : py_scope.
Notation "c ;; k" := (pbind c (fun _ => k))
  (at level 100, right associativity) : py_scope.

(** [for x in l: body] *)
Fixpoint for_each {A} (l : list A) (body : A -> P unit) : P unit :=
  match l with
  | [] => pret tt
  | x :: l' => (body x ;; for_each l' body)%py
  end.

Section Script.
Variable h : Host.

Definition print (line : string) : P unit :=
  fun tr => (POk tt, (tr ++ [Print line])%list).

(** [os.environ[name] = value] *)
Definition putenv (name value : string) : P unit :=
  fun tr => (POk tt, (tr ++ [Putenv name value])%list).

(** An operation on the file system or the network: attempted, and failed
    when the host says so. *)
Definition attempt (e : event) : P unit :=
  fun tr =>
    if fails h tr e then (PRaise OSError, (tr ++ [e])%list) else (POk tt, (tr ++ [e])%list).

(** [subprocess.call(argv, cwd=cwd, env=env)] *)
Definition call (argv : list string) (cwd : option string)
    (env : option (list (string * string))) : P Z :=
  fun tr =>
    match spawn h tr argv cwd with
    | Some status => (POk status, (tr ++ [Call argv cwd env])%list)
    | None => (PRaise OSError, (tr ++ [Call argv cwd env])%list)
    end.

(** [subprocess.check_call(argv, cwd=cwd, env=env)] *)
Definition check_call (argv : list string) (cwd : option string)
    (env : option (list (string * string))) : P unit :=
  (status <- call argv cwd env ;;
   if status =? 0 then pret tt else praise CalledProcessError)%py.

Definition path_exists (path : string) : P bool := fun tr => (POk (os_path_exists h tr path), tr).
Definition path_isfile (path : string) : P bool := fun tr => (POk (os_path_isfile h tr path), tr).
Definition path_isdir (path : string) : P bool := fun tr => (POk (os_path_isdir h tr path), tr).
Definition glob (pattern : string) : P (list string) := fun tr => (POk (glob_glob h tr pattern), tr).

(** [os.path.join(os.getenv('ProgramFiles'), '7-Zip', '7z.exe')] *)
Definition sevenzip_path : P string :=
  match getenv_ProgramFiles h with
  | Some pf => pret (os_path_join h [pf; "7-Zip"; "7z.exe"])
  | None => praise TypeError
  end.

Definition unzip_cmd : P (list string) :=
  (sevenzip <- sevenzip_path ;;
   found <- path_isfile sevenzip ;;
   pret (if found then [sevenzip; "x"] else ["unzip"; "-q"]))%py.

Definition zip_cmd : P (list string) :=
  (sevenzip <- sevenzip_path ;;
   found <- path_isfile sevenzip ;;
   pret (if found then [sevenzip; "a"; "-mx9"] else ["zip"; "-rq"]))%py.

Definition pywin32_filename_of (arch : string) : string :=
  if String.eqb arch "amd64"
  then "pywin32-" ++ pywin32_version ++ ".win-" ++ arch ++ "-py" ++ major_minor_version ++ ".exe"
  else "pywin32-" ++ pywin32_version ++ "." ++ arch ++ "-py" ++ major_minor_version ++ ".exe".

Definition filename_of (arch : string) : string :=
  "python-" ++ version ++ "-embed-" ++ arch ++ ".zip".

Definition out_filename_of (arch : string) : string :=
  "python-" ++ version ++ "-" ++ revision ++ "-embed-" ++ arch ++ "+pywin32.zip".

Definition make_python_patch (arch : string) : P unit :=
  (let pywin32_filename := pywin32_filename_of arch in
   let filename := filename_of arch in
   let out_filename := out_filename_of arch in
   present <- path_exists pywin32_filename ;;
   (if negb present then
      let download_url := pywin32_base ++ pywin32_filename in
      print ("Downloading pywin32: " ++ download_url) ;;
      attempt (Urlretrieve download_url pywin32_filename)
    else pret tt) ;;
   present <- path_exists filename ;;
   (if negb present then
      let download_url := base ++ filename in
      print ("Downloading python: " ++ download_url) ;;
      attempt (Urlretrieve download_url filename)
    else pret tt) ;;
   attempt (Mkdir "python-embed") ;;
   unzip <- unzip_cmd ;;
   check_call (unzip ++ [os_path_abspath h filename]) (Some "python-embed") None ;;
   attempt (Remove (os_path_join h
              ["python-embed"; "python" ++ remove_char "." major_minor_version ++ "._pth"])) ;;
   attempt (Mkdir "pywin32") ;;
   unzip <- unzip_cmd ;;
   rtn <- call (unzip ++ [os_path_abspath h pywin32_filename]) (Some "pywin32") None ;;
   (if (rtn =? 0) || (rtn =? 1) then pret tt else praise AssertionError) ;;
   attempt (Mkdir (os_path_join h ["python-embed"; "lib"])) ;;
   attempt (Move (os_path_join h ["pywin32"; "PLATLIB"])
                 (os_path_join h ["python-embed"; "lib"; "site-packages"])) ;;
   zip <- zip_cmd ;;
   check_call (zip ++ [os_path_join h [".."; out_filename]; "."]) (Some "python-embed") None ;;
   attempt (Rmtree "python-embed") ;;
   attempt (Rmtree "pywin32") ;;
   let upload_url := upload_base ++ out_filename in
   print ("Uploading: " ++ upload_url) ;;
   let cmd := ["gsutil"; "cp"; "-n"; out_filename; upload_url] in
   print (join " " cmd) ;;
   check_call cmd None None)%py.

(** Lines 113 to 133: the name of the system, and the two locals that are
    assigned on macOS only, and there only for the two known machines. *)
Definition platform_setup : P (string * option string * option string) :=
  (if String.prefix "darwin" (sys_platform h) then
     let osname := "macos" in
     check_call ["brew"; "install"; "openssl"; "pkg-config"] None None ;;
     let machine := platform_machine h in
     let '(prefix, min_macos_version) :=
       if String.eqb machine "x86_64" then (Some "/usr/local", Some "10.11")
       else if String.eqb machine "arm64" then (Some "/opt/homebrew", Some "11.0")
       else (None, None) in
     let osname := osname ++ "-" ++ machine in
     try_pass
       (p <- local prefix ;;
        attempt (Remove (os_path_join h [p; "opt"; "openssl"; "lib"; "libssl.dylib"])) ;;
        p <- local prefix ;;
        attempt (Remove (os_path_join h [p; "opt"; "openssl"; "lib"; "libcrypto.dylib"]))) ;;
     p <- local prefix ;;
     putenv "PKG_CONFIG_PATH" (os_path_join h [p; "opt"; "openssl"; "lib"; "pkgconfig"]) ;;
     pret (osname, prefix, min_macos_version)
   else pret ("linux", None, None))%py.

Definition build_python : P unit :=
  (setup <- platform_setup ;;
   let '(osname, prefix, min_macos_version) := setup in
   let src_dir := "cpython" in
   present <- path_exists src_dir ;;
   (if negb present
    then check_call ["git"; "clone"; "https://github.com/python/cpython"] None None
    else pret tt) ;;
   check_call ["git"; "checkout"; "v" ++ version] (Some src_dir) None ;;
   m <- local min_macos_version ;;
   let min_macos_version_line := "-mmacosx-version-min=" ++ m in
   let build_flags := min_macos_version_line ++ " -Werror=partial-availability" in
   m <- local min_macos_version ;;
   let env := Some [("MACOSX_DEPLOYMENT_TARGET", m)] in
   check_call ["./configure"; "CFLAGS=" ++ build_flags; "CXXFLAGS=" ++ build_flags;
               "LDFLAGS=" ++ min_macos_version_line] (Some src_dir) env ;;
   check_call ["make"; "-j"; str (cpu_count h)] (Some src_dir) env ;;
   check_call ["make"; "install"; "DESTDIR=install"] (Some src_dir) env ;;
   let install_dir := os_path_join h [src_dir; "install"] in
   let pybin := os_path_join h [src_dir; "install"; "usr"; "local"; "bin"; "python3"] in
   let pip := os_path_join h [src_dir; "install"; "usr"; "local"; "bin"; "pip3"] in
   check_call [pybin; pip; "install"; "requests"] None None ;;
   let dirname := "python-" ++ version ++ "-" ++ revision in
   old <- path_isdir dirname ;;
   (if old then
      print ("Erasing old build directory " ++ dirname) ;;
      attempt (Rmtree dirname)
    else pret tt) ;;
   attempt (Rename (os_path_join h [install_dir; "usr"; "local"]) dirname) ;;
   let tarball := "python-" ++ version ++ "-" ++ revision ++ "-" ++ osname ++ ".tar.gz" in
   attempt (Rmtree (os_path_join h [dirname; "lib"; "python" ++ major_minor_version; "test"])) ;;
   attempt (Rmtree (os_path_join h [dirname; "include"])) ;;
   libs <- glob (os_path_join h [dirname; "lib"; "lib*.a"]) ;;
   for_each libs (fun lib => attempt (Remove lib)) ;;
   check_call ["tar"; "zcvf"; tarball; dirname] None None ;;
   print ("Uploading: " ++ upload_base ++ tarball) ;;
   check_call ["gsutil"; "cp"; "-n"; tarball; upload_base ++ tarball] None None)%py.

Definition main : P Z :=
  ((if String.prefix "win" (sys_platform h)
    then for_each ["amd64"; "win32"] make_python_patch
    else build_python) ;;
   pret 0)%py.
End Script.

(** [c] only adds events to the trace, and each event it adds
    satisfies [Q]. *)
Definition emits {A} (Q : event -> Prop) (c : P A) : Prop :=
  forall tr, exists evs, snd (c tr) = (tr ++ evs)%list /\ Forall Q evs.

(** [c] returns, and ends its trace with [tail]. *)
Definition ends_with {A} (c : P A) (tail : list event) : Prop :=
  forall tr, exists a evs, c tr = (POk a, (tr ++ evs ++ tail)%list).

(** [c] raises [e], and the last event of its trace satisfies [Q]. *)
Definition raises_after {A} (c : P A) (e : perr) (Q : event -> Prop) : Prop :=
  forall tr, exists evs ev, c tr = (PRaise e, (tr ++ evs ++ [ev])%list) /\ Q ev.

(** A program run in the directory [pywin32] with the inherited
    environment. *)
Definition in_pywin32 (e : event) : Prop :=
  match e with Call _ (Some "pywin32") None => True | _ => False end.

(** The upload of the archive that [make_python_patch] builds for [arch]. *)
Definition upload_of (arch : string) : event :=
  Call ["gsutil"; "cp"; "-n"; out_filename_of arch; upload_base ++ out_filename_of arch]
       None None.

(** A Windows host on which no operation fails and every program returns
    zero, but for the programs run in the directory [pywin32], which return
    [code]. *)
Definition windows_host (h : Host) (code : Z) : Prop :=
  (exists pf, getenv_ProgramFiles h = Some pf) /\
  (forall tr e, fails h tr e = false) /\
  (forall tr argv cwd,
      spawn h tr argv cwd
      = Some (match cwd with
              | Some dir => if String.eqb dir "pywin32" then code else 0
              | None => 0
              end)).

Definition is_call (e : event) : Prop :=
  match e with Call _ _ _ => True | _ => False end.

Definition is_download (e : event) : Prop :=
  match e with Urlretrieve _ _ => True | _ => False end.

(** A [git] command run with the inherited environment. *)
Definition is_git (e : event) : Prop :=
  match e with Call ("git" :: _) _ None => True | _ => False end.

Definition brew_install : event :=
  Call ["brew"; "install"; "openssl"; "pkg-config"] None None.

(** A host on which every program runs and returns zero and no operation
    fails. *)
Definition cooperative (h : Host) : Prop :=
  (forall tr argv cwd, spawn h tr argv cwd = Some 0) /\
  (forall tr e, fails h tr e = false).

(** A host for the examples: [ProgramFiles] is not set, nothing exists,
    every program runs and returns zero, no operation fails. *)
Definition demo_host (platform machine : string) : Host :=
  mkHost platform machine 8 None (join "/") (fun p => "/work/" ++ p)
         (fun _ _ => false) (fun _ _ => false) (fun _ _ => false) (fun _ _ => [])
         (fun _ _ _ => Some 0) (fun _ _ => false).

(** A macOS host on which every file operation fails. *)
Definition demo_failing_host : Host :=
  mkHost "darwin" "arm64" 8 None (join "/") (fun p => p)
         (fun _ _ => false) (fun _ _ => false) (fun _ _ => false) (fun _ _ => [])
         (fun _ _ _ => Some 0) (fun _ _ => true).

(** A Windows host on which every path exists. *)
Definition demo_stocked_host : Host :=
  mkHost "win32" "AMD64" 8 (Some "C:/Program Files") (join "/") (fun p => p)
         (fun _ _ => true) (fun _ _ => false) (fun _ _ => false) (fun _ _ => [])
         (fun _ _ _ => Some 0) (fun _ _ => false).

(** A Windows host for the examples, with 7-Zip installed. *)
Definition demo_windows (code : Z) : Host :=
  mkHost "win32" "AMD64" 8 (Some "C:/Program Files") (join "/") (fun p => "C:/work/" ++ p)
         (fun _ _ => false) (fun _ _ => true) (fun _ _ => false) (fun _ _ => [])
         (fun _ _ cwd => Some (match cwd with
                               | Some dir => if String.eqb dir "pywin32" then code else 0
                               | None => 0
                               end))
         (fun _ _ => false).

End UpdatePython.

(** ** Examples *)

Example version_to_list_examples :
  version_to_list "1.2.3" = Ok [1; 2; 3] /\
  version_to_list "3.1.40-asserts" = Ok [3; 1; 40] /\
  version_to_list "1.2.3.4" = Ok [1; 2; 3] /\
  version_to_list "1.2" = Ok [1; 2] /\
  version_to_list "1.x.3" = Raise ValueError /\
  version_to_list "1..3" = Raise ValueError /\
  version_to_list "" = Raise ValueError.
Proof. repeat split. Qed.

Example int_examples :
  int " 42 " = Ok 42 /\ int "1_000" = Ok 1000 /\ int "+7" = Ok 7 /\
  int "007" = Ok 7 /\ int "" = Raise ValueError /\ int "1__0" = Raise ValueError /\
  int "_1" = Raise ValueError /\ int "1_" = Raise ValueError /\ int "-3" = Ok (-3).
Proof. repeat split. Qed.

Example int_white_space_examples :
  int (String (ascii_of_nat 160) "1") = Ok 1 /\
  int ("1" ++ String (ascii_of_nat 133) "") = Ok 1 /\
  int (String (ascii_of_nat 9) "1" ++ String (ascii_of_nat 10) "") = Ok 1 /\
  int (String (ascii_of_nat 28) "1") = Raise ValueError /\
  int ("1" ++ String (ascii_of_nat 31) "") = Raise ValueError /\
  int ("1" ++ String (ascii_of_nat 160) "2") = Raise ValueError /\
  int "+ 1" = Raise ValueError.
Proof. repeat split. Qed.

Example str_examples : str 0 = "0" /\ str 120 = "120" /\ str (-5) = "-5".
Proof. repeat split. Qed.

Example sort_releases_example :
  sort_releases [("1.9.0", "a"); ("1.10.0", "b"); ("1.2", "c"); ("1.2.0", "d"); ("1", "e")]
  = Ok [("1.10.0", "b"); ("1.9.0", "a"); ("1.2.0", "d"); ("1.2", "c"); ("1", "e")].
Proof. reflexivity. Qed.

Example main_unresolved_tip_of_tree :
  fst (main (mkEnv (Some EmptyString) (fun _ => Some registry_1_0_0) None
                   json_dumps_plain (fun _ => None) true)
            [] (demo_state registry_1_0_0))
  = Raise ResolverError.
Proof. vm_compute. reflexivity. Qed.

(** * Properties *)

(** ** Decimal literals *)

Lemma all_digits_of_uint (u : Decimal.uint) :
  all_digits (NilEmpty.string_of_uint u) = true.
Proof. induction u; simpl; auto. Qed.

Lemma int_digits_of_uint_acc (u : Decimal.uint) :
  forall p : positive,
    int_digits (Z.pos p) (NilEmpty.string_of_uint u) = Ok (Z.pos (Pos.of_uint_acc u p)).
Proof.
  induction u; intro p; cbn [NilEmpty.string_of_uint int_digits Pos.of_uint_acc];
    try reflexivity;
    match goal with
    | |- context [is_digit ?c] => change (is_digit c) with true; cbv iota
    end;
    match goal with
    | |- int_digits ?a _ = Ok (Z.pos (Pos.of_uint_acc _ ?q)) =>
        replace a with (Z.pos q)
          by (match goal with
              | |- context [digit_value ?c] =>
                  let v := eval vm_compute in (digit_value c) in
                  change (digit_value c) with v
              end; lia)
    end; apply IHu.
Qed.

Lemma int_digits_of_uint (u : Decimal.uint) :
  int_digits 0 (NilEmpty.string_of_uint u) = Ok (Z.of_N (Pos.of_uint u)).
Proof.
  induction u; cbn [NilEmpty.string_of_uint int_digits Pos.of_uint];
    try reflexivity;
    match goal with
    | |- context [is_digit ?c] => change (is_digit c) with true; cbv iota
    end;
    [ exact IHu | .. ];
    match goal with
    | |- int_digits ?a _ = Ok (Z.of_N (N.pos (Pos.of_uint_acc _ ?q))) =>
        change a with (Z.pos q)
    end; apply int_digits_of_uint_acc.
Qed.

(** A string of digits is left as it is by [strip], and has no sign. *)
Lemma digit_not_space (c : ascii) : is_digit c = true -> is_str_space c = false.
Proof.
  unfold is_digit, is_str_space. cbv zeta. intros H.
  apply andb_true_iff in H as [H1 H2].
  apply Nat.leb_le in H1. apply Nat.leb_le in H2.
  repeat (apply orb_false_iff; split).
  - apply andb_false_iff. right. apply Nat.leb_gt. lia.
  - apply Nat.eqb_neq. lia.
  - apply Nat.eqb_neq. lia.
  - apply Nat.eqb_neq. lia.
Qed.

Lemma digit_not_sep (c : ascii) : is_digit c = true -> is_sep c = false.
Proof.
  unfold is_sep. intros H.
  apply orb_false_iff; split; apply Ascii.eqb_neq; intros ->; discriminate H.
Qed.

Lemma rstrip_digits (s : string) :
  all_digits s = true -> rstrip is_str_space s = s.
Proof.
  induction s as [|c s IH]; simpl; intros H; [reflexivity|].
  apply andb_true_iff in H as [Hc Hs].
  rewrite (IH Hs). destruct s; [|reflexivity].
  now rewrite (digit_not_space c Hc).
Qed.

Lemma strip_digits (s : string) :
  all_digits s = true -> strip is_str_space s = s.
Proof.
  intros H. unfold strip.
  destruct s as [|c s]; [reflexivity|].
  simpl in H. apply andb_true_iff in H as [Hc Hs].
  cbn [lstrip]. rewrite (digit_not_space c Hc).
  apply rstrip_digits. simpl. now rewrite Hc, Hs.
Qed.

Lemma int_of_digits (c : ascii) (s : string) :
  all_digits (String c s) = true ->
  int (String c s) = int_digits 0 (String c s).
Proof.
  intros H. unfold int. rewrite (strip_digits _ H).
  simpl in H. apply andb_true_iff in H as [Hc Hs].
  assert (Hplus : c <> "+"%char) by (intros ->; discriminate Hc).
  assert (Hminus : c <> "-"%char) by (intros ->; discriminate Hc).
  assert (E : int_unsigned (String c s) = int_digits 0 (String c s)).
  { cbn [int_unsigned int_digits]. rewrite Hc. reflexivity. }
  rewrite <- E. clear E Hc Hs.
  destruct c as [[|] [|] [|] [|] [|] [|] [|] [|]];
    try reflexivity; congruence.
Qed.

Lemma to_uint_nonnil (p : positive) : Pos.to_uint p <> Decimal.Nil.
Proof.
  intros H. pose proof (DecimalPos.Unsigned.of_to p) as E.
  rewrite H in E. discriminate E.
Qed.

(** [str] of a natural number is a non-empty string of digits. *)
Lemma str_all_digits (n : Z) : 0 <= n -> all_digits (str n) = true.
Proof.
  intros Hn. unfold str. destruct n as [|p|p]; [reflexivity| |lia].
  cbn [Z.to_int NilZero.string_of_int]. unfold NilZero.string_of_uint.
  destruct (Pos.to_uint p); try apply all_digits_of_uint. reflexivity.
Qed.

Lemma str_nonempty (n : Z) : exists c s, str n = String c s.
Proof.
  unfold str. destruct n as [|p|p]; cbn [Z.to_int NilZero.string_of_int].
  - now exists "0"%char, EmptyString.
  - pose proof (to_uint_nonnil p) as H. unfold NilZero.string_of_uint.
    destruct (Pos.to_uint p); try congruence; simpl; eauto.
  - eauto.
Qed.

(** Reading back what [str] prints. *)
Lemma int_str (n : Z) : 0 <= n -> int (str n) = Ok n.
Proof.
  intros Hn. pose proof (str_all_digits n Hn) as Hd.
  destruct (str_nonempty n) as (c & s & E).
  rewrite E in Hd |- *. rewrite (int_of_digits c s Hd). rewrite <- E.
  unfold str. destruct n as [|p|p]; [reflexivity| |lia].
  cbn [Z.to_int NilZero.string_of_int]. unfold NilZero.string_of_uint.
  pose proof (to_uint_nonnil p) as Hnil.
  pose proof (DecimalPos.Unsigned.of_to p) as Hof.
  assert (G : int_digits 0 (NilEmpty.string_of_uint (Pos.to_uint p)) = Ok (Z.pos p)).
  { rewrite int_digits_of_uint, Hof. reflexivity. }
  destruct (Pos.to_uint p); try congruence; exact G.
Qed.

(** ** Splitting at periods and hyphens *)

Lemma all_digits_no_sep (s : string) : all_digits s = true -> no_sep s = true.
Proof.
  induction s as [|c s IH]; simpl; [reflexivity|].
  intros H. apply andb_true_iff in H as [Hc Hs].
  now rewrite (digit_not_sep c Hc), IH.
Qed.

Lemma re_split_length (s : string) : List.length (re_split s) = S (count_sep s).
Proof.
  induction s as [|c s IH]; simpl; [reflexivity|].
  destruct (is_sep c); simpl; [now rewrite IH|].
  destruct (re_split s); simpl in *; [discriminate IH | exact IH].
Qed.

Lemma re_split_no_sep (p : string) : no_sep p = true -> re_split p = [p].
Proof.
  induction p as [|c p IH]; simpl; [reflexivity|].
  intros H. apply andb_true_iff in H as [Hc Hp].
  apply negb_true_iff in Hc. now rewrite Hc, (IH Hp).
Qed.

Lemma re_split_app (p : string) (c : ascii) (r : string) :
  no_sep p = true -> is_sep c = true ->
  re_split (p ++ String c r) = p :: re_split r.
Proof.
  intros Hp Hc. induction p as [|d p IH]; simpl.
  - now rewrite Hc.
  - simpl in Hp. apply andb_true_iff in Hp as [Hd Hp].
    apply negb_true_iff in Hd. now rewrite Hd, (IH Hp).
Qed.

Lemma comprehension_Forall2 {A B} (f : A -> result B) (l : list A) (l' : list B) :
  comprehension f l = Ok l' <-> Forall2 (fun x y => f x = Ok y) l l'.
Proof.
  revert l'. induction l as [|x l IH]; intros l'; simpl.
  - split; intros H; [injection H as <-; constructor | now inversion H].
  - destruct (f x) as [y|e] eqn:Fx; simpl.
    + destruct (comprehension f l) as [ys|e] eqn:Fl; simpl.
      * split; intros H.
        -- injection H as <-. constructor; [exact Fx | now apply IH].
        -- inversion H as [|? y' ? ys' Hy Hys]; subst.
           apply IH in Hys. congruence.
      * split; intros H; [discriminate H|].
        inversion H as [|? y' ? ys' Hy Hys]; subst.
        apply IH in Hys. discriminate Hys.
    + split; intros H; [discriminate H|].
      inversion H as [|? y' ? ys' Hy Hys]; subst. congruence.
Qed.

Lemma str_no_sep (n : Z) : 0 <= n -> no_sep (str n) = true.
Proof. intros H. apply all_digits_no_sep, str_all_digits, H. Qed.

(** ** The last element *)

Lemma incr_last_app (init : list Z) (x : Z) :
  incr_last (init ++ [x])%list = Ok (init ++ [x + 1])%list.
Proof.
  induction init as [|y init IH]; [reflexivity|].
  change ((y :: init) ++ [x])%list with (y :: (init ++ [x]))%list.
  cbn [incr_last]. rewrite IH.
  destruct (init ++ [x])%list eqn:E; [now destruct init|reflexivity].
Qed.

Lemma nonempty_last {A} (l : list A) : l <> [] -> exists init x, l = (init ++ [x])%list.
Proof.
  intros H. destruct (exists_last H) as (init & x & E). eauto.
Qed.

(** ** Parsing a version string *)

Lemma version_to_list_parts (p1 p2 p3 : string) (tail : list string) (x y z : Z) :
  int p1 = Ok x -> int p2 = Ok y -> int p3 = Ok z ->
  comprehension int (firstn 3 (p1 :: p2 :: p3 :: tail)) = Ok [x; y; z].
Proof. intros H1 H2 H3. simpl. now rewrite H1, H2, H3. Qed.

(** C2. A version string [X.Y.Z] of three natural numbers is parsed to
    [[X; Y; Z]], and so is that string followed by a period or a hyphen and
    anything else: what comes after the third component is dropped, as in
    [1.2.3-rc1]. *)
Theorem version_to_list_triple (x y z : Z) :
  0 <= x -> 0 <= y -> 0 <= z ->
  version_to_list (str x ++ "." ++ str y ++ "." ++ str z) = Ok [x; y; z] /\
  (forall (c : ascii) (rest : string),
      is_sep c = true ->
      version_to_list (str x ++ "." ++ str y ++ "." ++ str z ++ String c rest)
      = Ok [x; y; z]) /\
  version_to_list "1.2.3-rc1" = Ok [1; 2; 3].
Proof.
  intros Hx Hy Hz.
  pose proof (str_no_sep x Hx) as Sx. pose proof (str_no_sep y Hy) as Sy.
  pose proof (str_no_sep z Hz) as Sz.
  assert (Happ : forall s, "." ++ s = String "." s) by reflexivity.
  assert (Hdot : is_sep "." = true) by reflexivity.
  unfold version_to_list. repeat split.
  - rewrite !Happ.
    rewrite (re_split_app _ _ _ Sx Hdot), (re_split_app _ _ _ Sy Hdot),
      (re_split_no_sep _ Sz).
    apply version_to_list_parts; now apply int_str.
  - intros c rest Hc.
    rewrite !Happ.
    rewrite (re_split_app _ _ _ Sx Hdot), (re_split_app _ _ _ Sy Hdot),
      (re_split_app _ _ _ Sz Hc).
    apply version_to_list_parts; now apply int_str.
Qed.

Lemma version_to_list_triple_witness :
  version_to_list (str 3 ++ "." ++ str 1 ++ "." ++ str 40) = Ok [3; 1; 40] /\
  version_to_list (str 3 ++ "." ++ str 1 ++ "." ++ str 40 ++ String "-" "asserts")
  = Ok [3; 1; 40].
Proof.
  destruct (version_to_list_triple 3 1 40) as (H1 & H2 & _); [lia | lia | lia |].
  split; [exact H1 | apply H2; reflexivity].
Defined.

(** C3, as amended. The increment adds exactly one to the last element of
    the version list.  For a list of three components that is the patch:
    [[1; 2; 3]] gives [[1; 2; 4]], and on every triple the major and the
    minor component stay as they are while the patch component grows by
    one; this is the version [main] goes on with when [aliases["latest"]]
    parses to a triple. *)
Theorem incr_last_patch :
  incr_last [1; 2; 3] = Ok [1; 2; 4] /\
  (forall major minor patch : Z,
      incr_last [major; minor; patch] = Ok [major; minor; patch + 1]) /\
  (forall (ri : ReleaseInfo) (latest : string) (major minor patch : Z),
      dict_get "latest" (aliases ri) = Ok latest ->
      version_to_list latest = Ok [major; minor; patch] ->
      next_version ri = Ok [major; minor; patch + 1]) /\
  (forall (init : list Z) (x : Z),
      incr_last (init ++ [x])%list = Ok (init ++ [x + 1])%list).
Proof.
  split; [reflexivity|]. split; [reflexivity|]. split.
  - intros ri latest major minor patch Hlatest Hparse.
    unfold next_version. rewrite Hlatest. cbn [rbind]. rewrite Hparse. reflexivity.
  - apply incr_last_app.
Qed.

Lemma incr_last_patch_witness :
  next_version (mkReleaseInfo [("latest", "3.1.9")] [("3.1.9", "abc")]) = Ok [3; 1; 10].
Proof.
  destruct incr_last_patch as (_ & _ & H & _).
  apply (H _ "3.1.9" 3 1 9); reflexivity.
Defined.

(** C3 as stated fails: not every version list is a triple.  The alias
    [1.2] parses to [[1; 2]] and the increment turns it into [[1; 3]], so
    the minor component changes; the alias [7] parses to [[7]] and the
    increment changes the major component. *)
Lemma incr_last_changes_minor :
  version_to_list "1.2" = Ok [1; 2] /\
  next_version (mkReleaseInfo [("latest", "1.2")] [("1.2", "abc")]) = Ok [1; 3] /\
  nth 1 [1; 2] 0 <> nth 1 [1; 3] 0 /\
  version_to_list "7" = Ok [7] /\
  next_version (mkReleaseInfo [("latest", "7")] [("7", "abc")]) = Ok [8] /\
  nth 0 [7] 0 <> nth 0 [8] 0.
Proof.
  split; [reflexivity|]. split; [reflexivity|]. split; [discriminate|].
  split; [reflexivity|]. split; [reflexivity | discriminate].
Qed.

(** C8. The branch of version [[2; 0; 1]] is [version_2_0_1]: the tag
    [version_] followed by the three components joined by underscores. *)
Theorem branch_name_of_version :
  branch_name_of [2; 0; 1] = "version_2_0_1" /\
  (forall a b c : Z,
      branch_name_of [a; b; c] = "version_" ++ str a ++ "_" ++ str b ++ "_" ++ str c).
Proof. split; reflexivity. Qed.

(** C10. [version_to_list] does not pad: its result has one integer for
    each of the first three pieces of the string, so fewer than three when
    the string has fewer than two separators ([1.2] gives [[1; 2]]).  The
    result is never empty, and the increment adds one to its last element,
    whichever component that is ([1.2] is followed by [[1; 3]]). *)
Theorem version_to_list_no_padding (s : string) (l : list Z) :
  version_to_list s = Ok l ->
  List.length l = Nat.min 3 (S (count_sep s)) /\
  Forall2 (fun part n => int part = Ok n) (firstn 3 (re_split s)) l /\
  (exists init x, l = (init ++ [x])%list /\ incr_last l = Ok (init ++ [x + 1])%list) /\
  version_to_list "1.2" = Ok [1; 2] /\
  incr_last [1; 2] = Ok [1; 3].
Proof.
  intros H. unfold version_to_list in H.
  apply comprehension_Forall2 in H.
  assert (Hlen : List.length l = Nat.min 3 (S (count_sep s))).
  { rewrite <- (Forall2_length H), length_firstn, re_split_length. reflexivity. }
  repeat split; try assumption.
  assert (Hne : l <> []) by (intros ->; simpl in Hlen; lia).
  destruct (nonempty_last l Hne) as (init & x & ->).
  exists init, x. split; [reflexivity | apply incr_last_app].
Qed.

Lemma version_to_list_no_padding_witness :
  List.length [1; 2] = Nat.min 3 (S (count_sep "1.2")) /\
  exists init x, [1; 2] = (init ++ [x])%list /\
                 incr_last [1; 2] = Ok (init ++ [x + 1])%list.
Proof.
  destruct (version_to_list_no_padding "1.2" [1; 2]) as (H1 & _ & H3 & _).
  - reflexivity.
  - split; [exact H1 | exact H3].
Defined.

(** ** The order on version lists *)

Lemma list_lt_irrefl (a : list Z) : list_lt a a = false.
Proof. induction a as [|x a IH]; simpl; [reflexivity|]. now rewrite Z.ltb_irrefl. Qed.

Lemma list_lt_trans (a b c : list Z) :
  list_lt a b = true -> list_lt b c = true -> list_lt a c = true.
Proof.
  revert b c. induction a as [|x a IH]; intros [|y b] [|z c]; simpl;
    try congruence.
  destruct (Z.ltb_spec x y), (Z.ltb_spec y x), (Z.ltb_spec y z),
    (Z.ltb_spec z y), (Z.ltb_spec x z), (Z.ltb_spec z x);
    try congruence; try lia.
  apply IH.
Qed.

Lemma list_lt_asym (a b : list Z) : list_lt a b = true -> list_lt b a = false.
Proof.
  intros H. destruct (list_lt b a) eqn:E; [|reflexivity].
  pose proof (list_lt_trans _ _ _ H E) as F.
  now rewrite list_lt_irrefl in F.
Qed.

Lemma list_lt_total (a b : list Z) :
  list_lt a b = false -> list_lt b a = false -> a = b.
Proof.
  revert b. induction a as [|x a IH]; intros [|y b]; simpl; try congruence.
  destruct (Z.ltb_spec x y), (Z.ltb_spec y x); try congruence; try lia.
  intros H1 H2. f_equal; [lia | now apply IH].
Qed.

(** [b <= a] and [c <= b] give [c <= a]. *)
Lemma list_ge_trans (a b c : list Z) :
  list_lt a b = false -> list_lt b c = false -> list_lt a c = false.
Proof.
  intros H1 H2. destruct (list_lt a c) eqn:E; [|reflexivity].
  destruct (list_lt b a) eqn:F.
  - pose proof (list_lt_trans _ _ _ F E). congruence.
  - pose proof (list_lt_total _ _ H1 F). subst. congruence.
Qed.

(** ** The stable sort *)

Section KeyedSortFacts.
Context {A : Type}.
Implicit Types (x y : list Z * A) (l : list (list Z * A)).

Lemma insert_keyed_perm x l : Permutation (insert_keyed x l) (x :: l).
Proof.
  induction l as [|y l IH]; simpl; [reflexivity|].
  destruct (list_lt (fst y) (fst x)); [|reflexivity].
  rewrite IH. apply perm_swap.
Qed.

Lemma sort_keyed_perm l : Permutation (sort_keyed l) l.
Proof.
  induction l as [|x l IH]; simpl; [reflexivity|].
  rewrite insert_keyed_perm. now constructor.
Qed.

Lemma insert_keyed_sorted x l :
  StronglySorted asc l -> StronglySorted asc (insert_keyed x l).
Proof.
  induction 1 as [|y l Hl IH Hy]; simpl.
  - repeat constructor.
  - destruct (list_lt (fst y) (fst x)) eqn:E.
    + constructor; [exact IH|].
      assert (F : Forall (asc y) (x :: l)).
      { constructor; [|exact Hy]. unfold asc. now apply list_lt_asym. }
      revert F. apply Permutation_Forall.
      symmetry. apply insert_keyed_perm.
    + constructor; [now constructor|].
      constructor; [exact E|].
      apply (Forall_impl (P := asc y)); [|exact Hy].
      intros z Hz. unfold asc in *.
      destruct (list_lt (fst z) (fst x)) eqn:F; [|reflexivity].
      destruct (list_lt (fst x) (fst y)) eqn:G.
      * pose proof (list_lt_trans _ _ _ F G). congruence.
      * pose proof (list_lt_total _ _ G E) as Heq. rewrite Heq in F. congruence.
Qed.

Lemma sort_keyed_sorted l : StronglySorted asc (sort_keyed l).
Proof.
  induction l as [|x l IH]; simpl; [constructor | now apply insert_keyed_sorted].
Qed.

(** The sort is stable: the elements of any one key come out in the order
    they came in. *)
Lemma insert_keyed_stable (k : list Z) x l :
  let same := fun y : list Z * A => if list_eq_dec Z.eq_dec (fst y) k then true else false in
  filter same (insert_keyed x l) = filter same (x :: l).
Proof.
  intros same. induction l as [|y l IH]; [reflexivity|].
  cbn [insert_keyed]. destruct (list_lt (fst y) (fst x)) eqn:E; [|reflexivity].
  cbn [filter] in *. rewrite IH.
  destruct (same x) eqn:Sx, (same y) eqn:Sy; try reflexivity.
  exfalso. unfold same in Sx, Sy.
  destruct (list_eq_dec Z.eq_dec (fst x) k) as [Ex|]; [|discriminate].
  destruct (list_eq_dec Z.eq_dec (fst y) k) as [Ey|]; [|discriminate].
  rewrite Ex, Ey, list_lt_irrefl in E. discriminate.
Qed.

Lemma sort_keyed_stable (k : list Z) l :
  let same := fun y : list Z * A => if list_eq_dec Z.eq_dec (fst y) k then true else false in
  filter same (sort_keyed l) = filter same l.
Proof.
  intros same. induction l as [|x l IH]; [reflexivity|].
  cbn [sort_keyed]. unfold same. rewrite insert_keyed_stable.
  cbn [filter]. fold same. now rewrite IH.
Qed.

(** An element above all the others goes to the end. *)
Lemma insert_keyed_top x l :
  Forall (above x) l -> insert_keyed x l = (l ++ [x])%list.
Proof.
  induction 1 as [|y l Hy Hl IH]; simpl; [reflexivity|].
  unfold above in Hy. now rewrite Hy, IH.
Qed.

(** A list in strictly descending order is reversed by the sort. *)
Lemma sort_keyed_descending l :
  StronglySorted above l -> sort_keyed l = rev l.
Proof.
  induction 1 as [|x l Hl IH Hx]; simpl; [reflexivity|].
  rewrite IH. apply insert_keyed_top.
  apply Forall_rev, Hx.
Qed.
End KeyedSortFacts.

Lemma combine_map_snd {A B} (ks : list A) (l : list B) :
  List.length ks = List.length l -> map snd (combine ks l) = l.
Proof.
  revert l. induction ks as [|k ks IH]; intros [|x l]; simpl; try congruence.
  intros H. f_equal. apply IH. congruence.
Qed.

Lemma combine_map_fst {A B} (ks : list A) (l : list B) :
  List.length ks = List.length l -> map fst (combine ks l) = ks.
Proof.
  revert l. induction ks as [|k ks IH]; intros [|x l]; simpl; try congruence.
  intros H. f_equal. apply IH. congruence.
Qed.

Lemma comprehension_combine {A B} (f : A -> result B) (l : list A) (ks : list B) :
  comprehension f l = Ok ks ->
  List.length ks = List.length l /\
  Forall (fun kp => f (snd kp) = Ok (fst kp)) (combine ks l).
Proof.
  intros H. apply comprehension_Forall2 in H.
  induction H as [|x k l ks Hx Hl [IH1 IH2]]; simpl.
  - split; [reflexivity | constructor].
  - split; [congruence | now constructor].
Qed.

Lemma comprehension_map_snd {A B} (f : A -> result B) (l : list (B * A)) :
  Forall (fun kp => f (snd kp) = Ok (fst kp)) l ->
  comprehension f (map snd l) = Ok (map fst l).
Proof.
  induction 1 as [|kp l Hkp Hl IH]; simpl; [reflexivity|].
  now rewrite Hkp, IH.
Qed.

(** [sort_by] returns a permutation of its argument, with the keys of its
    elements in ascending order. *)
Lemma sort_by_spec {A} (key : A -> result (list Z)) (l sorted : list A) :
  sort_by key l = Ok sorted ->
  exists sk : list (list Z * A),
    sorted = map snd sk /\
    Permutation sorted l /\
    Forall (fun kp => key (snd kp) = Ok (fst kp)) sk /\
    StronglySorted asc sk.
Proof.
  unfold sort_by. destruct (comprehension key l) as [ks|e] eqn:E; simpl; [|discriminate].
  intros H. injection H as <-.
  destruct (comprehension_combine _ _ _ E) as [Hlen Hkeys].
  exists (sort_keyed (combine ks l)). repeat split.
  - rewrite <- (combine_map_snd ks l Hlen) at 2.
    apply Permutation_map, sort_keyed_perm.
  - revert Hkeys. apply Permutation_Forall.
    symmetry. apply sort_keyed_perm.
  - apply sort_keyed_sorted.
Qed.

(** ** Sorted lists *)

Lemma StronglySorted_app {A} (R : A -> A -> Prop) (l1 l2 : list A) :
  StronglySorted R l1 -> StronglySorted R l2 ->
  (forall x y, In x l1 -> In y l2 -> R x y) ->
  StronglySorted R (l1 ++ l2).
Proof.
  induction 1 as [|a l1 H1 IH Ha]; intros H2 H12; simpl; [exact H2|].
  constructor.
  - apply IH; [exact H2|]. intros x y Hx Hy. apply H12; [now right | exact Hy].
  - apply Forall_app. split; [exact Ha|].
    apply Forall_forall. intros y Hy. apply H12; [now left | exact Hy].
Qed.

Lemma StronglySorted_rev {A} (R : A -> A -> Prop) (l : list A) :
  StronglySorted R l -> StronglySorted (fun a b => R b a) (rev l).
Proof.
  induction 1 as [|a l Hl IH Ha]; simpl; [constructor|].
  apply StronglySorted_app; [exact IH | repeat constructor |].
  intros x y Hx [<-|[]]. apply in_rev in Hx.
  rewrite Forall_forall in Ha. now apply Ha.
Qed.

Lemma StronglySorted_map {A B} (f : A -> B) (R : B -> B -> Prop) (l : list A) :
  StronglySorted (fun x y => R (f x) (f y)) l <-> StronglySorted R (map f l).
Proof.
  induction l as [|a l IH]; simpl; split; intros H; try constructor;
    apply StronglySorted_inv in H as [H1 H2]; try (now apply IH).
  - rewrite Forall_forall in *. intros y Hy.
    apply in_map_iff in Hy as (x & <- & Hx). now apply H2.
  - rewrite Forall_forall in *. intros x Hx.
    apply H2. now apply in_map.
Qed.

Lemma descending_of_sorted (vs : list (list Z)) :
  StronglySorted (fun a b => list_lt a b = false) vs -> descending vs = true.
Proof.
  induction 1 as [|a vs Hvs IH Ha]; [reflexivity|].
  destruct vs as [|b vs]; [reflexivity|].
  change (descending (a :: b :: vs))
    with (negb (list_lt a b) && descending (b :: vs)).
  rewrite IH, andb_true_r.
  inversion Ha as [|? ? Hab _]; subst. now rewrite Hab.
Qed.

Lemma strictly_descending_of_sorted (vs : list (list Z)) :
  StronglySorted (fun a b => list_lt a b = false) vs -> NoDup vs ->
  strictly_descending vs = true.
Proof.
  induction 1 as [|a vs Hvs IH Ha]; intros Hnd; [reflexivity|].
  inversion Hnd as [|? ? Hnotin Hnd']; subst.
  destruct vs as [|b vs]; [reflexivity|].
  change (strictly_descending (a :: b :: vs))
    with (list_lt b a && strictly_descending (b :: vs)).
  rewrite (IH Hnd'), andb_true_r.
  inversion Ha as [|? ? Hab _]; subst.
  destruct (list_lt b a) eqn:E; [reflexivity|].
  exfalso. apply Hnotin. left. symmetry. now apply list_lt_total.
Qed.

Lemma sorted_of_strictly_descending (vs : list (list Z)) :
  strictly_descending vs = true ->
  StronglySorted (fun a b => list_lt b a = true) vs.
Proof.
  induction vs as [|a vs IH]; intros H; [constructor|].
  destruct vs as [|b vs]; [repeat constructor|].
  change (strictly_descending (a :: b :: vs))
    with (list_lt b a && strictly_descending (b :: vs)) in H.
  apply andb_true_iff in H as [Hab H].
  specialize (IH H). constructor; [exact IH|].
  constructor; [exact Hab|].
  apply StronglySorted_inv in IH as [_ Hb].
  apply (Forall_impl (P := fun c => list_lt c b = true)); [|exact Hb].
  intros c Hc. now apply (list_lt_trans c b a).
Qed.

Lemma strictly_descending_NoDup (vs : list (list Z)) :
  strictly_descending vs = true -> NoDup vs.
Proof.
  intros H. apply sorted_of_strictly_descending in H.
  induction H as [|a vs Hvs IH Ha]; constructor; [|exact IH].
  intros Hin. rewrite Forall_forall in Ha.
  specialize (Ha a Hin). now rewrite list_lt_irrefl in Ha.
Qed.

(** ** Dictionaries *)

Lemma dict_set_fresh (k v : string) (d : dict) :
  ~ In k (keys d) -> dict_set k v d = (d ++ [(k, v)])%list.
Proof.
  induction d as [|[k' v'] d IH]; simpl; intros H; [reflexivity|].
  destruct (String.eqb_spec k k') as [->|Hne]; [tauto|].
  f_equal. apply IH. tauto.
Qed.

Lemma keys_dict_set (k v : string) (d : dict) (k' : string) :
  In k' (keys (dict_set k v d)) <-> k' = k \/ In k' (keys d).
Proof.
  induction d as [|[k0 v0] d IH]; simpl; [intuition congruence|].
  destruct (String.eqb_spec k k0) as [->|Hne]; simpl; [|rewrite IH];
    intuition congruence.
Qed.

Lemma dict_set_wf (k v : string) (d : dict) :
  dict_wf d -> dict_wf (dict_set k v d).
Proof.
  unfold dict_wf. induction d as [|[k0 v0] d IH]; simpl; intros H.
  - repeat constructor. intros [].
  - inversion H as [|? ? Hnotin Hnd]; subst.
    destruct (String.eqb_spec k k0) as [->|Hne]; simpl; [now constructor|].
    constructor; [|now apply IH].
    rewrite keys_dict_set. intuition congruence.
Qed.

Lemma dict_set_In (k v : string) (d : dict) : In (k, v) (dict_set k v d).
Proof.
  induction d as [|[k0 v0] d IH]; simpl; [now left|].
  destruct (String.eqb_spec k k0) as [->|Hne]; [now left | now right].
Qed.

Lemma dict_set_elements (k v : string) (d : dict) (e : string * string) :
  In e (dict_set k v d) -> e = (k, v) \/ In e d.
Proof.
  induction d as [|[k0 v0] d IH]; simpl; [intuition|].
  destruct (String.eqb_spec k k0) as [->|Hne]; simpl; intuition.
Qed.

Lemma dict_get_In (k v : string) (d : dict) :
  dict_wf d -> In (k, v) d -> dict_get k d = Ok v.
Proof.
  unfold dict_wf. induction d as [|[k0 v0] d IH]; simpl; intros Hnd Hin; [tauto|].
  inversion Hnd as [|? ? Hnotin Hnd']; subst.
  destruct Hin as [E|Hin].
  - injection E as -> ->. now rewrite String.eqb_refl.
  - destruct (String.eqb_spec k k0) as [->|Hne]; [|now apply IH].
    exfalso. apply Hnotin. apply (in_map fst) in Hin. exact Hin.
Qed.

Lemma fold_dict_set_nodup (l acc : dict) :
  dict_wf (acc ++ l)%list ->
  fold_left (fun d kv => dict_set (fst kv) (snd kv) d) l acc = (acc ++ l)%list.
Proof.
  revert acc. induction l as [|[k v] l IH]; intros acc H; simpl.
  - now rewrite List.app_nil_r.
  - assert (Hk : ~ In k (keys acc)).
    { unfold dict_wf, keys in H. rewrite map_app in H. simpl in H.
      apply NoDup_remove_2 in H. intros Hin. apply H.
      apply in_or_app. now left. }
    rewrite (dict_set_fresh _ _ _ Hk), IH; rewrite <- List.app_assoc; [reflexivity|exact H].
Qed.

Lemma OrderedDict_wf (l : dict) : dict_wf l -> OrderedDict l = l.
Proof. intros H. unfold OrderedDict. now rewrite fold_dict_set_nodup. Qed.

Lemma keys_fold_dict_set (l acc : dict) (k : string) :
  In k (keys (fold_left (fun d kv => dict_set (fst kv) (snd kv) d) l acc))
  <-> In k (keys acc) \/ In k (keys l).
Proof.
  revert acc. induction l as [|[k0 v0] l IH]; intros acc; simpl; [tauto|].
  rewrite IH, keys_dict_set. simpl. intuition congruence.
Qed.

Lemma keys_OrderedDict (l : dict) (k : string) :
  In k (keys (OrderedDict l)) <-> In k (keys l).
Proof. unfold OrderedDict. rewrite keys_fold_dict_set. simpl. tauto. Qed.

(** ** The sort of the releases *)

Lemma sort_releases_spec (d d' : dict) :
  dict_wf d -> sort_releases d = Ok d' ->
  exists sk : list (list Z * (string * string)),
    d' = rev (map snd sk) /\
    Permutation d' d /\
    versions_of d' = Ok (rev (map fst sk)) /\
    StronglySorted asc sk.
Proof.
  intros Hwf. unfold sort_releases.
  destruct (sort_by pair_key d) as [sorted|e] eqn:E; simpl; [|discriminate].
  intros H. injection H as <-.
  destruct (sort_by_spec _ _ _ E) as (sk & -> & Hperm & Hkeys & Hsorted).
  assert (Hrev : Permutation (rev (map snd sk)) d).
  { rewrite <- Hperm. symmetry. apply Permutation_rev. }
  assert (Hwf' : dict_wf (rev (map snd sk))).
  { unfold dict_wf, keys in *. revert Hwf. apply Permutation_NoDup.
    apply Permutation_map. now symmetry. }
  rewrite (OrderedDict_wf _ Hwf').
  exists sk. repeat split; try assumption.
  unfold versions_of. rewrite <- !map_rev.
  apply comprehension_map_snd. apply Forall_rev, Hkeys.
Qed.

Lemma sort_releases_descending (d d' : dict) :
  dict_wf d -> sort_releases d = Ok d' ->
  exists vs : list (list Z),
    versions_of d' = Ok vs /\
    descending vs = true /\
    (NoDup vs -> strictly_descending vs = true).
Proof.
  intros Hwf H.
  destruct (sort_releases_spec d d' Hwf H) as (sk & _ & _ & Hvs & Hsorted).
  exists (rev (map fst sk)). split; [exact Hvs|].
  assert (S : StronglySorted (fun a b => list_lt a b = false) (rev (map fst sk))).
  { apply (StronglySorted_rev (fun a b => list_lt b a = false)).
    apply StronglySorted_map. exact Hsorted. }
  split; [now apply descending_of_sorted | now apply strictly_descending_of_sorted].
Qed.

(** ** Runs of [main] *)

Lemma is_empty_true (s : string) : is_empty s = true <-> s = EmptyString.
Proof. destruct s; simpl; split; congruence. Qed.

(** The successful runs of [main] are the runs on a clean tree, with a
    registry that loads and whose latest version parses, a branch name that
    is free, a provenance, release keys that all parse, a hook and a commit
    that succeed; they return zero and end in [promoted_state]. *)
Lemma main_ok (env : Env) (args : list string) (st st' : State) (r : Z) :
  main env args st = (Ok r, st') <->
  exists out ri v h d g,
    git_status_porcelain env = Some out /\
    strip is_bytes_space out = EmptyString /\
    load_releases_info env (tags_file st) = Some ri /\
    next_version ri = Ok v /\
    existsb (String.eqb (branch_name_of v)) (branches st) = false /\
    new_hash_of args (emsdk_get_emscripten_releases_tot env) = Ok h /\
    sort_releases (releases (add_release (version_string_of v) h ri)) = Ok d /\
    let ri' := set_latest (version_string_of v)
                 (mkReleaseInfo (aliases (add_release (version_string_of v) h ri)) d) in
    update_bazel_workspace env (json_dumps env ri' ++ newline) = Some g /\
    git_commit_ok env = true /\
    r = 0 /\
    st' = promoted_state env st v h ri' g.
Proof.
  unfold main, bind, git_status, emsdk_load_releases_info, run_update_bazel_workspace,
    git_checkout_b, git_commit, set_release_info, write_tags_file, git_add_u,
    print, sys_exit, of_option, modify, get, lift, ret, raise, bind.
  split.
  - destruct (git_status_porcelain env) as [out|] eqn:Hout; [|discriminate].
    destruct (is_empty (strip is_bytes_space out)) eqn:Hclean; simpl; [|discriminate].
    apply is_empty_true in Hclean.
    destruct (load_releases_info env (tags_file st)) as [ri|] eqn:Hload; [|discriminate].
    destruct (next_version ri) as [v|] eqn:Hv; [|discriminate].
    cbn [tags_file bazel_workspace branches HEAD index commits stdout release_info].
    destruct (existsb _ (branches st)) eqn:Hbranch; [discriminate|].
    destruct (new_hash_of args _) as [h|] eqn:Hh; [|discriminate].
    destruct (sort_releases _) as [d|] eqn:Hd; [|discriminate].
    cbn [tags_file bazel_workspace branches HEAD index commits stdout release_info].
    destruct (update_bazel_workspace env _) as [g|] eqn:Hg; [|discriminate].
    destruct (git_commit_ok env) eqn:Hc; [|discriminate].
    intros H. injection H as <- <-.
    exists out, ri, v, h, d, g. repeat split; assumption.
  - intros (out & ri & v & h & d & g & Hout & Hclean & Hload & Hv & Hbranch & Hh
            & Hd & Hg & Hc & -> & ->).
    rewrite Hout, Hclean. cbn [is_empty negb]. rewrite Hload, Hv.
    cbn [tags_file bazel_workspace branches HEAD index commits stdout release_info].
    rewrite Hbranch, Hh, Hd.
    cbn [tags_file bazel_workspace branches HEAD index commits stdout release_info].
    cbv zeta in Hg. rewrite Hg, Hc. reflexivity.
Qed.

(** A successful run leaves in memory the registry that [promote] computes
    from the loaded one. *)
Lemma main_promote (env : Env) (args : list string) (st st' : State) (r : Z) :
  main env args st = (Ok r, st') ->
  exists ri h ri',
    load_releases_info env (tags_file st) = Some ri /\
    new_hash_of args (emsdk_get_emscripten_releases_tot env) = Ok h /\
    promote h ri = Ok ri' /\
    release_info st' = Some ri' /\
    tags_file st' = json_dumps env ri' ++ newline.
Proof.
  intros H. apply main_ok in H
    as (out & ri & v & h & d & g & _ & _ & Hload & Hv & _ & Hh & Hd & _ & _ & _ & ->).
  eexists ri, h, _. repeat split; try eassumption; try reflexivity.
  unfold promote, record_release. rewrite Hv. cbn [rbind]. cbv zeta.
  rewrite Hd. reflexivity.
Qed.

Lemma dict_get_set_same (k v : string) (d : dict) :
  dict_get k (dict_set k v d) = Ok v.
Proof.
  induction d as [|[k0 v0] d IH]; simpl; [now rewrite String.eqb_refl|].
  destruct (String.eqb k k0) eqn:E; simpl; rewrite E; [reflexivity | exact IH].
Qed.

Lemma sort_releases_keys (d d' : dict) (k : string) :
  sort_releases d = Ok d' -> (In k (keys d') <-> In k (keys d)).
Proof.
  unfold sort_releases.
  destruct (sort_by pair_key d) as [sorted|e] eqn:E; simpl; [|discriminate].
  intros H. injection H as <-.
  destruct (sort_by_spec _ _ _ E) as (sk & _ & Hperm & _).
  rewrite keys_OrderedDict. unfold keys. rewrite map_rev, <- in_rev.
  split; apply Permutation_in, Permutation_map; [exact Hperm | now symmetry].
Qed.

Lemma versions_keys_NoDup (d : dict) (vs : list (list Z)) :
  versions_of d = Ok vs -> NoDup vs -> dict_wf d.
Proof.
  unfold versions_of, dict_wf. intros H. apply comprehension_Forall2 in H.
  induction H as [|p v d vs Hp Hd IH]; intros Hnd; simpl; constructor;
    inversion Hnd as [|? ? Hnotin Hnd']; subst; [|now apply IH].
  intros Hin. apply Hnotin. clear IH Hnotin Hnd Hnd'.
  induction Hd as [|q w d vs Hq Hd IH]; simpl in *; [tauto|].
  destruct Hin as [E|Hin]; [left | right; now apply IH].
  unfold pair_key in *. rewrite E in Hq. congruence.
Qed.

(** ** The claims about [main] *)

(** C1. On a clean tree, with the registry
    [releases = {"1.0.0": "abc"}, aliases = {"latest": "1.0.0"}], no branch
    [version_1_0_1] yet, the argument [def], and a hook and a commit that
    succeed, [main] returns zero; the registry it leaves in memory and
    writes to the file has [releases = {"1.0.1": "def", "1.0.0": "abc"}] in
    this order and [aliases["latest"] = "1.0.1"]. *)
Theorem promotion_of_1_0_0 (env : Env) (st : State) (out generated : string) :
  git_status_porcelain env = Some out ->
  strip is_bytes_space out = EmptyString ->
  load_releases_info env (tags_file st) = Some registry_1_0_0 ->
  existsb (String.eqb "version_1_0_1") (branches st) = false ->
  update_bazel_workspace env (json_dumps env registry_1_0_1 ++ newline) = Some generated ->
  git_commit_ok env = true ->
  exists st',
    main env ["def"] st = (Ok 0, st') /\
    release_info st' = Some registry_1_0_1 /\
    tags_file st' = json_dumps env registry_1_0_1 ++ newline /\
    releases registry_1_0_1 = [("1.0.1", "def"); ("1.0.0", "abc")] /\
    dict_get "latest" (aliases registry_1_0_1) = Ok "1.0.1".
Proof.
  intros Hout Hclean Hload Hbranch Hhook Hcommit.
  exists (promoted_state env st [1; 0; 1] "def" registry_1_0_1 generated).
  repeat split.
  apply main_ok.
  exists out, registry_1_0_0, [1; 0; 1], "def", (releases registry_1_0_1), generated.
  repeat split; assumption || reflexivity.
Qed.

Lemma promotion_of_1_0_0_witness :
  exists st',
    main (demo_env registry_1_0_0) ["def"] (demo_state registry_1_0_0) = (Ok 0, st') /\
    release_info st' = Some registry_1_0_1.
Proof.
  destruct (promotion_of_1_0_0 (demo_env registry_1_0_0) (demo_state registry_1_0_0)
              EmptyString
              ("# generated from " ++ json_dumps_plain registry_1_0_1 ++ newline))
    as (st' & H1 & H2 & _); try reflexivity.
  exists st'. split; assumption.
Defined.

(** C4. When [git status --porcelain] prints anything but white space,
    [main] prints its message and exits with status one, and nothing else
    has happened: the registry file, the generated files, the branches, the
    index and the commits are as before, and no registry was loaded into
    memory. *)
Theorem dirty_tree_exits (env : Env) (args : list string) (st : State) (out : string) :
  git_status_porcelain env = Some out ->
  strip is_bytes_space out <> EmptyString ->
  exists st',
    main env args st = (Raise (SystemExit 1), st') /\
    exit_code (fst (main env args st)) = 1 /\
    tags_file st' = tags_file st /\
    release_info st' = release_info st /\
    bazel_workspace st' = bazel_workspace st /\
    branches st' = branches st /\
    HEAD st' = HEAD st /\
    index st' = index st /\
    commits st' = commits st /\
    stdout st' = (stdout st ++ ["tree is not clean"])%list.
Proof.
  intros Hout Hdirty.
  assert (E : is_empty (strip is_bytes_space out) = false).
  { destruct (is_empty _) eqn:E; [|reflexivity]. now apply is_empty_true in E. }
  unfold main, bind, git_status, of_option, ret. rewrite Hout, E. simpl.
  eexists. repeat split.
Qed.

Lemma dirty_tree_exits_witness :
  exists st',
    main (mkEnv (Some " M emsdk.py") (fun _ => Some registry_1_0_0) None
                json_dumps_plain (fun _ => None) true)
         ["def"] (demo_state registry_1_0_0)
    = (Raise (SystemExit 1), st') /\
    tags_file st' = tags_file (demo_state registry_1_0_0).
Proof.
  destruct (dirty_tree_exits
              (mkEnv (Some " M emsdk.py") (fun _ => Some registry_1_0_0) None
                     json_dumps_plain (fun _ => None) true)
              ["def"] (demo_state registry_1_0_0) " M emsdk.py")
    as (st' & H1 & _ & H2 & _).
  - reflexivity.
  - simpl. discriminate.
  - exists st'. split; assumption.
Defined.

(** C5, as amended. After a promotion the entries of [releases] are in
    descending order of the integer lists of their keys: no entry is below
    the entry after it, for the order of [list_lt], which compares integers
    and not text ([1.10.0] comes before [1.9.0]).  The order is strict when
    no two keys have the same integer list. *)
Theorem releases_descending (env : Env) (args : list string) (st st' : State)
    (r : Z) (ri : ReleaseInfo) :
  main env args st = (Ok r, st') ->
  load_releases_info env (tags_file st) = Some ri ->
  dict_wf (releases ri) ->
  (exists ri' vs,
      release_info st' = Some ri' /\
      versions_of (releases ri') = Ok vs /\
      descending vs = true /\
      (NoDup vs -> strictly_descending vs = true)) /\
  sort_releases [("1.9.0", "a"); ("1.10.0", "b")] = Ok [("1.10.0", "b"); ("1.9.0", "a")].
Proof.
  intros Hmain Hload Hwf. split; [|reflexivity].
  apply main_ok in Hmain
    as (out & ri0 & v & h & d & g & _ & _ & Hload0 & _ & _ & _ & Hd & _ & _ & _ & ->).
  assert (ri0 = ri) by congruence. subst ri0.
  destruct (sort_releases_descending _ d (dict_set_wf _ h _ Hwf) Hd)
    as (vs & Hvs & Hdesc & Hstrict).
  eexists _, vs. repeat split; eassumption.
Qed.

Lemma releases_descending_witness :
  exists ri' vs,
    release_info (snd (main (demo_env registry_asserts) [] (demo_state registry_asserts)))
    = Some ri' /\
    versions_of (releases ri') = Ok vs /\
    descending vs = true.
Proof.
  destruct (releases_descending (demo_env registry_asserts) [] (demo_state registry_asserts)
              (snd (main (demo_env registry_asserts) [] (demo_state registry_asserts)))
              0 registry_asserts)
    as ((ri' & vs & H1 & H2 & H3 & _) & _).
  - vm_compute. reflexivity.
  - vm_compute. reflexivity.
  - unfold dict_wf. simpl. repeat constructor; simpl; intuition discriminate.
  - exists ri', vs. repeat split; assumption.
Defined.

(** C5 as stated fails: the promotion of a registry with the keys [1.0.0]
    and [1.0.0-asserts] succeeds and leaves two neighbours with the same
    integer list. *)
Lemma releases_not_strictly_descending :
  let run := main (demo_env registry_asserts) ["def"] (demo_state registry_asserts) in
  dict_wf (releases registry_asserts) /\
  fst run = Ok 0 /\
  release_info (snd run)
  = Some (mkReleaseInfo [("latest", "1.0.1")]
            [("1.0.1", "def"); ("1.0.0-asserts", "abd"); ("1.0.0", "abc")]) /\
  versions_of [("1.0.1", "def"); ("1.0.0-asserts", "abd"); ("1.0.0", "abc")]
  = Ok [[1; 0; 1]; [1; 0; 0]; [1; 0; 0]] /\
  strictly_descending [[1; 0; 1]; [1; 0; 0]; [1; 0; 0]] = false.
Proof.
  repeat split.
  unfold dict_wf. simpl. repeat constructor; simpl; intuition discriminate.
Qed.

(** C6, as amended. Sorting a mapping whose entries are in strictly
    descending order of version returns the mapping with its entries in the
    same order. *)
Theorem sort_releases_idempotent (d : dict) (vs : list (list Z)) :
  versions_of d = Ok vs ->
  strictly_descending vs = true ->
  sort_releases d = Ok d.
Proof.
  intros Hvs Hdesc.
  pose proof (versions_keys_NoDup d vs Hvs (strictly_descending_NoDup vs Hdesc)) as Hwf.
  unfold sort_releases, sort_by. unfold versions_of in Hvs. rewrite Hvs. cbn [rbind].
  destruct (comprehension_combine _ _ _ Hvs) as [Hlen _].
  rewrite sort_keyed_descending.
  - rewrite map_rev, rev_involutive, (combine_map_snd _ _ Hlen).
    now rewrite OrderedDict_wf.
  - apply (StronglySorted_map fst (fun a b => list_lt b a = true)).
    rewrite (combine_map_fst _ _ Hlen).
    now apply sorted_of_strictly_descending.
Qed.

Lemma sort_releases_idempotent_witness :
  sort_releases [("1.10.0", "b"); ("1.9.0", "a"); ("1.9", "c")]
  = Ok [("1.10.0", "b"); ("1.9.0", "a"); ("1.9", "c")].
Proof.
  apply (sort_releases_idempotent _ [[1; 10; 0]; [1; 9; 0]; [1; 9]]); reflexivity.
Defined.

(** C6 as stated fails: the mapping below is in descending order, it is
    what the sort returns for the two entries in the other order, and
    sorting it again exchanges its entries. *)
Lemma sort_releases_not_idempotent :
  let d := [("1.0.0-asserts", "abd"); ("1.0.0", "abc")] in
  dict_wf d /\
  versions_of d = Ok [[1; 0; 0]; [1; 0; 0]] /\
  descending [[1; 0; 0]; [1; 0; 0]] = true /\
  sort_releases [("1.0.0", "abc"); ("1.0.0-asserts", "abd")] = Ok d /\
  sort_releases d = Ok [("1.0.0", "abc"); ("1.0.0-asserts", "abd")] /\
  sort_releases d <> Ok d.
Proof.
  repeat split; try discriminate.
  unfold dict_wf. simpl. repeat constructor; simpl; intuition discriminate.
Qed.

(** C7. The provenance is the first argument when there is one, and the
    answer of the tip-of-tree resolver otherwise; after a successful run it
    is the value of the new version, the one [aliases["latest"]] names, in
    [releases]. *)
Theorem provenance_recorded (env : Env) (args : list string) (st st' : State)
    (r : Z) (ri : ReleaseInfo) :
  main env args st = (Ok r, st') ->
  load_releases_info env (tags_file st) = Some ri ->
  dict_wf (releases ri) ->
  (forall (a : string) (rest : list string) (tip_of_tree : result string),
      new_hash_of (a :: rest) tip_of_tree = Ok a) /\
  (forall tip_of_tree : result string, new_hash_of [] tip_of_tree = tip_of_tree) /\
  exists ri' new_version new_hash,
    release_info st' = Some ri' /\
    dict_get "latest" (aliases ri') = Ok new_version /\
    dict_get new_version (releases ri') = Ok new_hash /\
    match args with
    | a :: _ => new_hash = a
    | [] => get_emscripten_releases_tot env = Some new_hash
    end.
Proof.
  intros Hmain Hload Hwf. split; [reflexivity|]. split; [reflexivity|].
  apply main_ok in Hmain
    as (out & ri0 & v & h & d & g & _ & _ & Hload0 & _ & _ & Hh & Hd & _ & _ & _ & ->).
  assert (ri0 = ri) by congruence. subst ri0.
  eexists _, (version_string_of v), h. split; [reflexivity|].
  cbn [promoted_state release_info set_latest aliases releases add_release].
  split; [apply dict_get_set_same|]. split.
  - pose proof (dict_set_wf (version_string_of v) h _ Hwf) as Hwf1.
    destruct (sort_releases_spec _ d Hwf1 Hd) as (sk & _ & Hperm & _).
    apply dict_get_In.
    + unfold dict_wf, keys in *. revert Hwf1. apply Permutation_NoDup.
      apply Permutation_map. now symmetry.
    + apply (Permutation_in _ (Permutation_sym Hperm)). apply dict_set_In.
  - destruct args as [|a rest]; simpl in Hh.
    + unfold emsdk_get_emscripten_releases_tot in Hh.
      destruct (get_emscripten_releases_tot env); congruence.
    + congruence.
Qed.

Lemma provenance_recorded_witness :
  exists ri' new_version,
    release_info (snd (main (demo_env registry_1_0_0) [] (demo_state registry_1_0_0)))
    = Some ri' /\
    dict_get "latest" (aliases ri') = Ok new_version /\
    dict_get new_version (releases ri') = Ok "0123abcd".
Proof.
  destruct (provenance_recorded (demo_env registry_1_0_0) [] (demo_state registry_1_0_0)
              (snd (main (demo_env registry_1_0_0) [] (demo_state registry_1_0_0)))
              0 registry_1_0_0)
    as (_ & _ & ri' & v & h & H1 & H2 & H3 & H4).
  - vm_compute. reflexivity.
  - vm_compute. reflexivity.
  - unfold dict_wf. simpl. repeat constructor; simpl; intuition.
  - cbn in H4. injection H4 as <-. exists ri', v. repeat split; assumption.
Defined.

(** C9. A successful promotion keeps the invariant of the registry: when
    the value of every alias of the loaded registry is a key of its
    [releases], the same holds of the registry left in memory and written
    to the file. *)
Theorem aliases_resolve_preserved (env : Env) (args : list string) (st st' : State)
    (r : Z) (ri : ReleaseInfo) :
  main env args st = (Ok r, st') ->
  load_releases_info env (tags_file st) = Some ri ->
  aliases_resolve ri = true ->
  exists ri',
    release_info st' = Some ri' /\
    tags_file st' = json_dumps env ri' ++ newline /\
    aliases_resolve ri' = true.
Proof.
  intros Hmain Hload Hinv.
  apply main_ok in Hmain
    as (out & ri0 & v & h & d & g & _ & _ & Hload0 & _ & _ & _ & Hd & _ & _ & _ & ->).
  assert (ri0 = ri) by congruence. subst ri0.
  eexists. split; [reflexivity|]. split; [reflexivity|].
  unfold aliases_resolve in *.
  cbn [set_latest aliases releases add_release] in *.
  rewrite forallb_forall in *. intros [name value] Hin. cbn [snd].
  apply existsb_exists. exists value. split; [|apply String.eqb_refl].
  apply (sort_releases_keys _ _ value Hd), keys_dict_set.
  apply dict_set_elements in Hin as [E|Hin].
  - left. congruence.
  - right. specialize (Hinv _ Hin). cbn [snd] in Hinv.
    apply existsb_exists in Hinv as (k & Hk & E).
    apply String.eqb_eq in E. now subst.
Qed.

Lemma aliases_resolve_preserved_witness :
  exists ri',
    release_info (snd (main (demo_env registry_asserts) ["def"] (demo_state registry_asserts)))
    = Some ri' /\
    aliases_resolve ri' = true.
Proof.
  destruct (aliases_resolve_preserved (demo_env registry_asserts) ["def"]
              (demo_state registry_asserts)
              (snd (main (demo_env registry_asserts) ["def"] (demo_state registry_asserts)))
              0 registry_asserts)
    as (ri' & H1 & _ & H2); try (vm_compute; reflexivity).
  exists ri'. split; assumption.
Defined.

(** * Further properties of [version_to_list] *)

Lemma digit_value_range (c : ascii) : is_digit c = true -> 0 <= digit_value c <= 9.
Proof.
  unfold is_digit, digit_value. intros H.
  apply andb_true_iff in H as [H1 H2].
  apply Nat.leb_le in H1. apply Nat.leb_le in H2. lia.
Qed.

Lemma int_digits_step (acc : Z) (c : ascii) (s : string) :
  int_digits acc (String c s) =
  if is_digit c then int_digits (10 * acc + digit_value c) s
  else if Ascii.eqb c "_"
       then match s with
            | String d s' =>
                if is_digit d then int_digits (10 * acc + digit_value d) s'
                else Raise ValueError
            | EmptyString => Raise ValueError
            end
       else Raise ValueError.
Proof. reflexivity. Qed.

(** [int_digits] recurses on the string two characters further after an
    underscore, so its properties are shown for a string and for the string
    after one more character together. *)
Lemma int_digits_nonneg_aux (s : string) :
  (forall acc n, 0 <= acc -> int_digits acc s = Ok n -> 0 <= n) /\
  (forall c acc n, 0 <= acc -> int_digits acc (String c s) = Ok n -> 0 <= n).
Proof.
  induction s as [|d s [IH1 IH2]].
  - split; [simpl; intros; congruence|].
    intros c acc n Hacc H. rewrite int_digits_step in H.
    destruct (is_digit c) eqn:Hc.
    + change (int_digits (10 * acc + digit_value c) EmptyString)
        with (Ok (A := Z) (10 * acc + digit_value c)) in H.
      assert (E : n = 10 * acc + digit_value c) by congruence.
      pose proof (digit_value_range c Hc). lia.
    + destruct (Ascii.eqb c "_"); discriminate.
  - split; [exact (IH2 d)|].
    intros c acc n Hacc H. rewrite int_digits_step in H.
    destruct (is_digit c) eqn:Hc.
    + apply (IH2 d) in H; [exact H|].
      pose proof (digit_value_range c Hc). lia.
    + destruct (Ascii.eqb c "_"); [|discriminate].
      destruct (is_digit d) eqn:Hd; [|discriminate].
      apply IH1 in H; [exact H|].
      pose proof (digit_value_range d Hd). lia.
Qed.

Lemma int_digits_nonneg (s : string) (acc n : Z) :
  0 <= acc -> int_digits acc s = Ok n -> 0 <= n.
Proof. apply int_digits_nonneg_aux. Qed.

Lemma int_unsigned_nonneg (s : string) (n : Z) : int_unsigned s = Ok n -> 0 <= n.
Proof.
  destruct s as [|c s]; simpl; [discriminate|].
  destruct (is_digit c) eqn:Hc; [|discriminate].
  apply int_digits_nonneg. now apply digit_value_range.
Qed.

Lemma int_digits_raises_aux (s : string) :
  (forall acc e, int_digits acc s = Raise e -> e = ValueError) /\
  (forall c acc e, int_digits acc (String c s) = Raise e -> e = ValueError).
Proof.
  induction s as [|d s [IH1 IH2]].
  - split; [simpl; intros; congruence|].
    intros c acc e H. rewrite int_digits_step in H.
    destruct (is_digit c); [discriminate|].
    destruct (Ascii.eqb c "_"); congruence.
  - split; [exact (IH2 d)|].
    intros c acc e H. rewrite int_digits_step in H.
    destruct (is_digit c).
    + now apply (IH2 d) in H.
    + destruct (Ascii.eqb c "_"); [|congruence].
      destruct (is_digit d); [|congruence].
      now apply IH1 in H.
Qed.

Lemma int_digits_raises (s : string) (acc : Z) (e : exn) :
  int_digits acc s = Raise e -> e = ValueError.
Proof. apply int_digits_raises_aux. Qed.

Lemma int_unsigned_raises (s : string) (e : exn) :
  int_unsigned s = Raise e -> e = ValueError.
Proof.
  destruct s as [|c s]; simpl; [congruence|].
  destruct (is_digit c); [apply int_digits_raises | congruence].
Qed.

Lemma int_raises (s : string) (e : exn) : int s = Raise e -> e = ValueError.
Proof.
  unfold int. set (t := strip is_str_space s). clearbody t.
  assert (U : forall r, int_unsigned r = Raise e -> e = ValueError)
    by (intros r; apply int_unsigned_raises).
  assert (N : forall r, rbind (int_unsigned r) (fun n => Ok (- n)) = Raise e -> e = ValueError).
  { intros r. destruct (int_unsigned r) eqn:E; simpl; [discriminate|].
    intros H. injection H as <-. now apply int_unsigned_raises in E. }
  destruct t as [|c r]; [apply U|].
  destruct c as [[|] [|] [|] [|] [|] [|] [|] [|]]; first [apply U | apply N].
Qed.

Lemma lstrip_no_sep (sp : ascii -> bool) (s : string) :
  no_sep s = true -> no_sep (lstrip sp s) = true.
Proof.
  induction s as [|c s IH]; simpl; [reflexivity|].
  intros H. destruct (sp c); [|exact H].
  apply andb_true_iff in H as [_ H]. now apply IH.
Qed.

Lemma rstrip_no_sep (sp : ascii -> bool) (s : string) :
  no_sep s = true -> no_sep (rstrip sp s) = true.
Proof.
  induction s as [|c s IH]; simpl; [reflexivity|].
  intros H. apply andb_true_iff in H as [Hc Hs]. specialize (IH Hs).
  destruct (rstrip sp s) as [|d r]; [destruct (sp c)|]; simpl in *;
    rewrite ?Hc, ?IH; reflexivity.
Qed.

(** Without a hyphen there is no minus sign. *)
Lemma int_nonneg (s : string) (n : Z) :
  no_sep s = true -> int s = Ok n -> 0 <= n.
Proof.
  intros Hs. unfold int.
  pose proof (rstrip_no_sep is_str_space _ (lstrip_no_sep is_str_space _ Hs)) as Ht.
  fold (strip is_str_space s) in Ht.
  set (t := strip is_str_space s) in *. clearbody t.
  destruct t as [|c r]; [apply int_unsigned_nonneg|].
  simpl in Ht. apply andb_true_iff in Ht as [Hc _]. apply negb_true_iff in Hc.
  destruct c as [[|] [|] [|] [|] [|] [|] [|] [|]];
    try apply int_unsigned_nonneg; discriminate Hc.
Qed.

Lemma re_split_pieces (s : string) : Forall (fun p => no_sep p = true) (re_split s).
Proof.
  induction s as [|c s IH]; simpl; [repeat constructor|].
  destruct (is_sep c) eqn:Hc; [now constructor|].
  destruct (re_split s) as [|p ps]; [repeat constructor; simpl; now rewrite Hc|].
  inversion IH as [|? ? Hp Hps]; subst.
  constructor; [|exact Hps]. simpl. now rewrite Hc, Hp.
Qed.

Lemma Forall_firstn {A} (P : A -> Prop) (n : nat) (l : list A) :
  Forall P l -> Forall P (firstn n l).
Proof.
  intros H. revert n. induction H as [|x l Hx Hl IH]; intros [|n]; simpl;
    constructor; auto.
Qed.

Lemma comprehension_raises {A B} (f : A -> result B) (l : list A) (e : exn) :
  comprehension f l = Raise e -> exists x, In x l /\ f x = Raise e.
Proof.
  induction l as [|x l IH]; simpl; [discriminate|].
  destruct (f x) as [y|e'] eqn:Fx; simpl.
  - destruct (comprehension f l) as [ys|e'] eqn:Fl; simpl; [discriminate|].
    intros H. injection H as ->. destruct (IH eq_refl) as (x' & Hin & Hx').
    exists x'. split; [now right | exact Hx'].
  - intros H. injection H as ->. exists x. split; [now left | exact Fx].
Qed.

Lemma comprehension_fails {A B} (f : A -> result B) (l : list A) (x : A) (e : exn) :
  In x l -> f x = Raise e -> exists e', comprehension f l = Raise e'.
Proof.
  induction l as [|y l IH]; simpl; [tauto|].
  intros [->|Hin] Hx.
  - rewrite Hx. simpl. eauto.
  - destruct (f y); simpl; [|eauto].
    destruct (IH Hin Hx) as (e' & ->). simpl. eauto.
Qed.

Lemma version_to_list_nonneg_aux (s : string) (l : list Z) :
  version_to_list s = Ok l -> Forall (fun n => 0 <= n) l.
Proof.
  unfold version_to_list. intros H. apply comprehension_Forall2 in H.
  pose proof (Forall_firstn _ 3 _ (re_split_pieces s)) as Hp.
  induction H as [|p n ps l Hpn Hl IH]; constructor;
    inversion Hp as [|? ? Hp1 Hp2]; subst.
  - now apply (int_nonneg p).
  - now apply IH.
Qed.

(** X1. The integers of a parsed version are never negative: a hyphen is
    a separator, so no piece carries a minus sign. *)
Theorem version_to_list_nonneg (s : string) (l : list Z) :
  version_to_list s = Ok l -> Forall (fun n => 0 <= n) l.
Proof. apply version_to_list_nonneg_aux. Qed.

Lemma version_to_list_nonneg_witness : Forall (fun n => 0 <= n) [1; 2; 3].
Proof. apply (version_to_list_nonneg "1-2-3-4"). reflexivity. Defined.

Lemma version_to_list_raises_aux (s : string) (e : exn) :
  version_to_list s = Raise e -> e = ValueError.
Proof.
  unfold version_to_list. intros H.
  apply comprehension_raises in H as (p & _ & Hp). now apply int_raises in Hp.
Qed.

(** X2. [ValueError] is the only exception [version_to_list] raises. *)
Theorem version_to_list_raises (s : string) (e : exn) :
  version_to_list s = Raise e -> e = ValueError.
Proof. apply version_to_list_raises_aux. Qed.

Lemma version_to_list_raises_witness : ValueError = ValueError.
Proof. apply (version_to_list_raises "1.2.x" ValueError). reflexivity. Defined.

(** X3. A version string with an empty piece among its first three is
    rejected with [ValueError]: the empty string, a string that begins with
    a separator, two separators in a row. *)
Theorem version_to_list_empty_piece (s : string) :
  In EmptyString (firstn 3 (re_split s)) -> version_to_list s = Raise ValueError.
Proof.
  intros Hin. unfold version_to_list.
  destruct (comprehension_fails int _ EmptyString ValueError Hin eq_refl) as (e & He).
  rewrite He. f_equal. apply (version_to_list_raises_aux s). exact He.
Qed.

Lemma version_to_list_empty_piece_witness :
  version_to_list "" = Raise ValueError /\
  version_to_list ".1.2" = Raise ValueError /\
  version_to_list "1--2" = Raise ValueError.
Proof.
  split; [|split]; apply version_to_list_empty_piece; simpl; tauto.
Defined.

(** X4. What follows the third separator has no influence at all: it is
    not read, so it can neither change the result nor make it fail. *)
Theorem version_to_list_ignores_tail (p1 p2 p3 rest : string) (c1 c2 c3 : ascii) :
  no_sep p1 = true -> no_sep p2 = true -> no_sep p3 = true ->
  is_sep c1 = true -> is_sep c2 = true -> is_sep c3 = true ->
  version_to_list (p1 ++ String c1 (p2 ++ String c2 (p3 ++ String c3 rest)))
  = version_to_list (p1 ++ String c1 (p2 ++ String c2 p3)).
Proof.
  intros H1 H2 H3 C1 C2 C3. unfold version_to_list.
  rewrite !(re_split_app p1), !(re_split_app p2) by assumption.
  rewrite (re_split_app p3), (re_split_no_sep p3) by assumption.
  reflexivity.
Qed.

Lemma version_to_list_ignores_tail_witness :
  version_to_list "3.1.40-asserts.x..y" = version_to_list "3.1.40" /\
  version_to_list "3.x.40-asserts" = version_to_list "3.x.40".
Proof.
  split.
  - apply (version_to_list_ignores_tail "3" "1" "40" "asserts.x..y" "." "." "-");
      reflexivity.
  - apply (version_to_list_ignores_tail "3" "x" "40" "asserts" "." "." "-");
      reflexivity.
Defined.

Lemma re_split_hyphens (s : string) : re_split (hyphens_as_periods s) = re_split s.
Proof.
  induction s as [|c s IH]; simpl; [reflexivity|].
  destruct (is_sep c) eqn:Hc; simpl; now rewrite ?Hc, IH.
Qed.

(** X5. Periods and hyphens are interchangeable: a string and the string
    with its hyphens written as periods parse alike. *)
Theorem version_to_list_hyphens (s : string) :
  version_to_list (hyphens_as_periods s) = version_to_list s.
Proof. unfold version_to_list. now rewrite re_split_hyphens. Qed.

Lemma re_split_join (parts : list string) :
  parts <> [] -> Forall (fun p => no_sep p = true) parts ->
  re_split (join "." parts) = parts.
Proof.
  intros Hne H. induction H as [|p ps Hp Hps IH]; [congruence|].
  destruct ps as [|q ps].
  - simpl. now apply re_split_no_sep.
  - change (join "." (p :: q :: ps)) with (p ++ String "." (join "." (q :: ps))).
    rewrite (re_split_app p "." _ Hp eq_refl), IH; [reflexivity | discriminate].
Qed.

Lemma comprehension_int_str (l : list Z) :
  Forall (fun n => 0 <= n) l -> comprehension int (map str l) = Ok l.
Proof.
  induction 1 as [|n l Hn Hl IH]; simpl; [reflexivity|].
  now rewrite (int_str n Hn), IH.
Qed.

Lemma version_string_round_trip_aux (l : list Z) :
  l <> [] -> Forall (fun n => 0 <= n) l ->
  version_to_list (version_string_of l) = Ok (firstn 3 l).
Proof.
  intros Hne Hl. unfold version_to_list, version_string_of.
  rewrite re_split_join.
  - rewrite firstn_map. apply comprehension_int_str. now apply Forall_firstn.
  - destruct l; [congruence | discriminate].
  - apply Forall_map. revert Hl. apply Forall_impl. intros n. apply str_no_sep.
Qed.

(** X6. Round trip: the string the script writes for a version list
    (line 34) is parsed back to that list, cut to its first three numbers,
    when the list is not empty and holds no negative number. *)
Theorem version_string_round_trip (l : list Z) :
  l <> [] -> Forall (fun n => 0 <= n) l ->
  version_to_list (version_string_of l) = Ok (firstn 3 l).
Proof. apply version_string_round_trip_aux. Qed.

Lemma version_string_round_trip_witness :
  version_to_list (version_string_of [3; 1; 41]) = Ok [3; 1; 41] /\
  version_to_list (version_string_of [1; 2; 3; 4]) = Ok [1; 2; 3].
Proof.
  split.
  - apply (version_string_round_trip [3; 1; 41]); [discriminate|].
    repeat constructor; lia.
  - apply (version_string_round_trip [1; 2; 3; 4]); [discriminate|].
    repeat constructor; lia.
Defined.

(** * Further properties of the dictionaries and of the sort *)

Lemma dict_get_set_other (k k' v : string) (d : dict) :
  k <> k' -> dict_get k (dict_set k' v d) = dict_get k d.
Proof.
  intros Hne. induction d as [|[k0 v0] d IH]; simpl.
  - destruct (String.eqb_spec k k'); [congruence | reflexivity].
  - destruct (String.eqb_spec k' k0) as [->|Hne0]; simpl.
    + destruct (String.eqb_spec k k0); [congruence | reflexivity].
    + destruct (String.eqb_spec k k0); [reflexivity | exact IH].
Qed.

Lemma dict_get_Ok (k v : string) (d : dict) : dict_get k d = Ok v -> In (k, v) d.
Proof.
  induction d as [|[k0 v0] d IH]; simpl; [discriminate|].
  destruct (String.eqb_spec k k0) as [->|Hne].
  - intros H. injection H as ->. now left.
  - intros H. right. now apply IH.
Qed.

Lemma dict_get_Raise (k : string) (d : dict) (e : exn) :
  dict_get k d = Raise e -> e = KeyError /\ ~ In k (keys d).
Proof.
  induction d as [|[k0 v0] d IH]; simpl.
  - intros H. injection H as <-. tauto.
  - destruct (String.eqb_spec k k0) as [->|Hne]; [discriminate|].
    intros H. destruct (IH H) as [-> Hnot]. split; [reflexivity|].
    intros [E|Hin]; [congruence | tauto].
Qed.

Lemma dict_get_missing (k : string) (d : dict) :
  ~ In k (keys d) -> dict_get k d = Raise KeyError.
Proof.
  intros H. destruct (dict_get k d) as [v|e] eqn:E.
  - apply dict_get_Ok in E. exfalso. apply H. now apply (in_map fst) in E.
  - apply dict_get_Raise in E as [-> _]. reflexivity.
Qed.

Lemma dict_get_perm (k : string) (d d' : dict) :
  dict_wf d -> Permutation d d' -> dict_get k d' = dict_get k d.
Proof.
  intros Hwf Hperm.
  assert (Hwf' : dict_wf d').
  { unfold dict_wf, keys in *. revert Hwf. apply Permutation_NoDup.
    now apply Permutation_map. }
  destruct (dict_get k d) as [v|e] eqn:E.
  - apply dict_get_In; [exact Hwf'|].
    apply (Permutation_in _ Hperm). now apply dict_get_Ok.
  - apply dict_get_Raise in E as [-> Hnot]. apply dict_get_missing.
    intros Hin. apply Hnot. revert Hin. unfold keys.
    apply Permutation_in, Permutation_map. now symmetry.
Qed.

Lemma keys_dict_set_present (k v : string) (d : dict) :
  In k (keys d) -> keys (dict_set k v d) = keys d.
Proof.
  induction d as [|[k0 v0] d IH]; simpl; [tauto|].
  destruct (String.eqb_spec k k0) as [->|Hne]; simpl; [reflexivity|].
  intros [E|Hin]; [congruence|]. now rewrite IH.
Qed.

Lemma comprehension_total {A B} (f : A -> result B) (l : list A) :
  Forall (fun x => exists y, f x = Ok y) l <-> exists ys, comprehension f l = Ok ys.
Proof.
  split.
  - induction 1 as [|x l [y Hy] Hl [ys IH]]; simpl; [eauto|].
    rewrite Hy, IH. simpl. eauto.
  - intros [ys H]. apply comprehension_Forall2 in H.
    induction H as [|x y l ys Hx Hl IH]; constructor; eauto.
Qed.

Lemma sort_releases_succeeds_iff (d : dict) :
  ((exists d', sort_releases d = Ok d') <->
   Forall (fun k => exists v, version_to_list k = Ok v) (keys d)) /\
  (forall e, sort_releases d = Raise e -> e = ValueError).
Proof.
  unfold sort_releases, sort_by. split; [split|].
  - intros [d' H].
    destruct (comprehension pair_key d) as [ks|e] eqn:E; [|discriminate].
    assert (F : Forall (fun p => exists v, pair_key p = Ok v) d)
      by (apply comprehension_total; eauto).
    rewrite Forall_forall in *. intros k Hk.
    apply in_map_iff in Hk as (p & <- & Hp). exact (F p Hp).
  - intros H.
    assert (F : Forall (fun p => exists v, pair_key p = Ok v) d).
    { rewrite Forall_forall in *. intros p Hp. apply H. now apply in_map. }
    apply comprehension_total in F as [ks ->]. simpl. eauto.
  - intros e H.
    destruct (comprehension pair_key d) as [ks|e'] eqn:E; simpl in H; [discriminate|].
    injection H as ->.
    apply comprehension_raises in E as (p & _ & Hp).
    now apply version_to_list_raises_aux in Hp.
Qed.

Lemma sort_releases_succeeds_aux (d : dict) :
  Forall (fun k => exists v, version_to_list k = Ok v) (keys d) ->
  exists d', sort_releases d = Ok d'.
Proof. apply sort_releases_succeeds_iff. Qed.

(** X7. The sort of the releases succeeds exactly when every key parses as
    a version, and [ValueError] is the only exception it raises. *)
Theorem sort_releases_succeeds (d : dict) :
  ((exists d', sort_releases d = Ok d') <->
   Forall (fun k => exists v, version_to_list k = Ok v) (keys d)) /\
  (forall e, sort_releases d = Raise e -> e = ValueError).
Proof. apply sort_releases_succeeds_iff. Qed.

Lemma sort_releases_succeeds_witness :
  (exists d', sort_releases [("1.9.0", "a"); ("1.10", "b")] = Ok d') /\
  ValueError = ValueError.
Proof.
  split.
  - apply (sort_releases_succeeds [("1.9.0", "a"); ("1.10", "b")]).
    repeat constructor; simpl; eexists; reflexivity.
  - apply (sort_releases_succeeds [("1.9.0", "a"); ("latest", "b")]).
    reflexivity.
Defined.

(** X8. The sort changes the order of the entries and nothing else: its
    result has the entries of its argument, each once, and every lookup
    answers as before. *)
Theorem sort_releases_same_entries (d d' : dict) :
  dict_wf d -> sort_releases d = Ok d' ->
  Permutation d' d /\ dict_wf d' /\ (forall k, dict_get k d' = dict_get k d).
Proof.
  intros Hwf H.
  destruct (sort_releases_spec d d' Hwf H) as (sk & _ & Hperm & _).
  split; [exact Hperm|]. split.
  - unfold dict_wf, keys in *. revert Hwf. apply Permutation_NoDup.
    apply Permutation_map. now symmetry.
  - intros k. apply dict_get_perm; [exact Hwf | now symmetry].
Qed.

Lemma sort_releases_same_entries_witness :
  Permutation [("1.10.0", "b"); ("1.9.0", "a"); ("1.9.0-asserts", "c")]
              [("1.9.0-asserts", "c"); ("1.10.0", "b"); ("1.9.0", "a")] /\
  dict_wf [("1.10.0", "b"); ("1.9.0", "a"); ("1.9.0-asserts", "c")].
Proof.
  destruct (sort_releases_same_entries
              [("1.9.0-asserts", "c"); ("1.10.0", "b"); ("1.9.0", "a")]
              [("1.10.0", "b"); ("1.9.0", "a"); ("1.9.0-asserts", "c")])
    as (H1 & H2 & _).
  - unfold dict_wf. simpl. repeat constructor; simpl; intuition discriminate.
  - reflexivity.
  - split; [exact H1 | exact H2].
Defined.

(** * Further properties of [main] *)

Ltac unfold_main :=
  unfold main, bind, git_status, emsdk_load_releases_info, run_update_bazel_workspace,
    git_checkout_b, git_commit, set_release_info, write_tags_file, git_add_u,
    print, sys_exit, of_option, modify, get, lift, ret, raise, bind.

Ltac project_state :=
  cbn [tags_file bazel_workspace branches HEAD index commits stdout release_info].

Lemma version_to_list_length (s : string) (l : list Z) :
  version_to_list s = Ok l -> l <> [] /\ (List.length l <= 3)%nat.
Proof.
  unfold version_to_list. intros H. apply comprehension_Forall2 in H.
  apply Forall2_length in H. rewrite length_firstn, re_split_length in H.
  split; [intros ->; simpl in H; lia | lia].
Qed.

Lemma not_In_existsb (b : string) (l : list string) :
  ~ In b l <-> existsb (String.eqb b) l = false.
Proof.
  split.
  - intros H. destruct (existsb _ l) eqn:E; [|reflexivity].
    apply existsb_exists in E as (b' & Hb & Eb). apply String.eqb_eq in Eb.
    subst b'. contradiction.
  - intros E Hin. assert (existsb (String.eqb b) l = true); [|congruence].
    apply existsb_exists. exists b. split; [exact Hin | apply String.eqb_refl].
Qed.

Lemma incr_last_raises (l : list Z) (e : exn) :
  incr_last l = Raise e -> l = [].
Proof.
  destruct l as [|x l]; [reflexivity|]. intros H. exfalso.
  destruct (nonempty_last (x :: l)) as (init & y & E); [discriminate|].
  rewrite E, incr_last_app in H. discriminate.
Qed.

(** X9. The next version fails to be computed in two ways only: with
    [KeyError] exactly when there is no alias [latest], and with
    [ValueError] when its value does not parse.  The increment itself never
    fails, since a parsed version is not empty.  In both cases [main] stops
    with that exception before it creates a branch: the registry is loaded
    in memory and nothing else has changed. *)
Theorem main_no_next_version (env : Env) (args : list string) (st : State)
    (out : string) (ri : ReleaseInfo) (e : exn) :
  git_status_porcelain env = Some out ->
  strip is_bytes_space out = EmptyString ->
  load_releases_info env (tags_file st) = Some ri ->
  next_version ri = Raise e ->
  main env args st = (Raise e, loaded st ri) /\
  (e = KeyError /\ ~ In "latest" (keys (aliases ri)) \/
   e = ValueError /\ exists latest, dict_get "latest" (aliases ri) = Ok latest /\
                                    version_to_list latest = Raise ValueError).
Proof.
  intros Hout Hclean Hload Hv. split.
  - unfold_main. rewrite Hout, Hclean. cbn [is_empty negb]. rewrite Hload, Hv.
    reflexivity.
  - unfold next_version in Hv.
    destruct (dict_get "latest" (aliases ri)) as [latest|e'] eqn:El; simpl in Hv.
    + right. destruct (version_to_list latest) as [l|e'] eqn:Ev; simpl in Hv.
      * exfalso. pose proof (incr_last_raises l e Hv) as ->.
        destruct (version_to_list_length latest [] Ev) as [Hne _]. congruence.
      * injection Hv as <-. pose proof (version_to_list_raises_aux _ _ Ev) as ->.
        split; [reflexivity|]. eauto.
    + left. injection Hv as <-. now apply dict_get_Raise in El.
Qed.

Lemma main_no_next_version_witness :
  main (demo_env (mkReleaseInfo [("stable", "1.0.0")] [("1.0.0", "abc")])) ["def"]
       (demo_state registry_1_0_0)
  = (Raise KeyError,
     loaded (demo_state registry_1_0_0)
            (mkReleaseInfo [("stable", "1.0.0")] [("1.0.0", "abc")])).
Proof.
  apply (main_no_next_version _ _ _ EmptyString); reflexivity.
Defined.

(** X10. When the branch of the new version already exists, [git checkout
    -b] fails and [main] stops on [CalledProcessError]: nothing is printed,
    the registry file is not written and nothing is committed. *)
Theorem main_branch_exists (env : Env) (args : list string) (st : State)
    (out : string) (ri : ReleaseInfo) (v : list Z) :
  git_status_porcelain env = Some out ->
  strip is_bytes_space out = EmptyString ->
  load_releases_info env (tags_file st) = Some ri ->
  next_version ri = Ok v ->
  In (branch_name_of v) (branches st) ->
  main env args st = (Raise CalledProcessError, loaded st ri).
Proof.
  intros Hout Hclean Hload Hv Hin. unfold_main.
  rewrite Hout, Hclean. cbn [is_empty negb]. rewrite Hload, Hv. project_state.
  assert (E : existsb (String.eqb (branch_name_of v)) (branches st) = true).
  { apply existsb_exists. exists (branch_name_of v). split; [exact Hin|].
    apply String.eqb_refl. }
  rewrite E. reflexivity.
Qed.

Lemma main_branch_exists_witness :
  main (demo_env registry_1_0_0) ["def"]
       (mkState "" "" ["version_1_0_1"; "main"] "main" None [] [] None)
  = (Raise CalledProcessError,
     loaded (mkState "" "" ["version_1_0_1"; "main"] "main" None [] [] None)
            registry_1_0_0).
Proof.
  apply (main_branch_exists _ _ _ EmptyString _ [1; 0; 1]);
    try reflexivity. simpl. tauto.
Defined.

(** X11. A release key that does not parse stops [main] on [ValueError]
    only at the sort, after the branch was created and checked out, the
    first message printed and the release added in memory: the registry
    file, the generated files, the index and the commits are untouched,
    and the work stays on the new branch. *)
Theorem main_unparsable_key (env : Env) (args : list string) (st : State)
    (out : string) (ri : ReleaseInfo) (v : list Z) (h k : string) (e : exn) :
  git_status_porcelain env = Some out ->
  strip is_bytes_space out = EmptyString ->
  load_releases_info env (tags_file st) = Some ri ->
  next_version ri = Ok v ->
  ~ In (branch_name_of v) (branches st) ->
  new_hash_of args (emsdk_get_emscripten_releases_tot env) = Ok h ->
  In k (keys (releases ri)) ->
  version_to_list k = Raise e ->
  main env args st = (Raise ValueError, branched st v h ri).
Proof.
  intros Hout Hclean Hload Hv Hfree Hh Hk Hparse. unfold_main.
  rewrite Hout, Hclean. cbn [is_empty negb]. rewrite Hload, Hv. project_state.
  assert (E : existsb (String.eqb (branch_name_of v)) (branches st) = false)
    by now apply not_In_existsb.
  rewrite E, Hh.
  destruct (sort_releases (releases (add_release (version_string_of v) h ri)))
    as [d|e'] eqn:Hd.
  - exfalso.
    destruct (sort_releases_succeeds_iff (releases (add_release (version_string_of v) h ri)))
      as [[Hall _] _].
    specialize (Hall (ex_intro _ d Hd)). rewrite Forall_forall in Hall.
    destruct (Hall k) as [l Hl]; [|congruence].
    cbn [add_release releases]. apply keys_dict_set. now right.
  - destruct (sort_releases_succeeds_iff (releases (add_release (version_string_of v) h ri)))
      as [_ Hval].
    rewrite (Hval e' Hd). reflexivity.
Qed.

Lemma main_unparsable_key_witness :
  main (demo_env registry_tot) ["def"] (demo_state registry_tot)
  = (Raise ValueError, branched (demo_state registry_tot) [1; 0; 1] "def" registry_tot).
Proof.
  apply (main_unparsable_key _ _ _ EmptyString registry_tot [1; 0; 1] "def" "tot"
           ValueError);
    try reflexivity.
  - simpl. intuition discriminate.
  - simpl. tauto.
Defined.

(** X12. Without an argument and without an answer of the resolver,
    [main] stops on the resolver's failure after it created and checked
    out the branch, and before it printed or wrote anything. *)
Theorem main_no_provenance (env : Env) (st : State)
    (out : string) (ri : ReleaseInfo) (v : list Z) :
  git_status_porcelain env = Some out ->
  strip is_bytes_space out = EmptyString ->
  load_releases_info env (tags_file st) = Some ri ->
  next_version ri = Ok v ->
  ~ In (branch_name_of v) (branches st) ->
  get_emscripten_releases_tot env = None ->
  main env [] st
  = (Raise ResolverError,
     mkState (tags_file st) (bazel_workspace st)
             (branch_name_of v :: branches st) (branch_name_of v)
             (index st) (commits st) (stdout st) (Some ri)).
Proof.
  intros Hout Hclean Hload Hv Hfree Htip. unfold_main.
  rewrite Hout, Hclean. cbn [is_empty negb]. rewrite Hload, Hv. project_state.
  assert (E : existsb (String.eqb (branch_name_of v)) (branches st) = false)
    by now apply not_In_existsb.
  rewrite E. unfold new_hash_of, emsdk_get_emscripten_releases_tot.
  rewrite Htip. reflexivity.
Qed.

Lemma main_no_provenance_witness :
  fst (main (mkEnv (Some EmptyString) (fun _ => Some registry_1_0_0) None
                   json_dumps_plain (fun _ => None) true)
            [] (demo_state registry_1_0_0))
  = Raise ResolverError.
Proof.
  rewrite (main_no_provenance _ _ EmptyString registry_1_0_0 [1; 0; 1]);
    try reflexivity.
  simpl. intuition discriminate.
Defined.

(** ** The version of a successful run *)

Lemma incr_last_shape (l l' : list Z) :
  incr_last l = Ok l' ->
  List.length l' = List.length l /\
  (Forall (fun n => 0 <= n) l -> Forall (fun n => 0 <= n) l').
Proof.
  intros H. destruct l as [|x l]; [discriminate|].
  destruct (nonempty_last (x :: l)) as (init & y & E); [discriminate|].
  rewrite E in *. rewrite incr_last_app in H. injection H as <-.
  split; [now rewrite !length_app|].
  intros F. apply Forall_app in F as [F1 F2]. apply Forall_app. split; [exact F1|].
  inversion F2; subst. repeat constructor. lia.
Qed.

(** A version that [next_version] returns is read back from its string. *)
Lemma next_version_round_trip (ri : ReleaseInfo) (v : list Z) :
  next_version ri = Ok v ->
  v <> [] /\ version_to_list (version_string_of v) = Ok v.
Proof.
  unfold next_version.
  destruct (dict_get "latest" (aliases ri)) as [latest|] eqn:El; simpl; [|discriminate].
  destruct (version_to_list latest) as [l|] eqn:Ev; simpl; [|discriminate].
  intros H.
  destruct (version_to_list_length _ _ Ev) as [Hne Hlen].
  destruct (incr_last_shape _ _ H) as [Hlen' Hnn].
  specialize (Hnn (version_to_list_nonneg_aux _ _ Ev)).
  assert (Hv : v <> []) by (intros ->; destruct l; simpl in *; congruence).
  split; [exact Hv|].
  rewrite (version_string_round_trip_aux v Hv Hnn).
  f_equal. apply firstn_all2. lia.
Qed.

(** X13. The update of the registry (lines 27, 28, 34 and 37 to 42) fails
    on unparsable input only: when the alias [latest] parses and every
    release key parses, the next version is computed, its string parses
    as well, the sort succeeds and the promoted registry is returned,
    whatever the provenance. *)
Theorem promote_succeeds (ri : ReleaseInfo) (latest new_hash : string) (l : list Z) :
  dict_get "latest" (aliases ri) = Ok latest ->
  version_to_list latest = Ok l ->
  Forall (fun k => exists v, version_to_list k = Ok v) (keys (releases ri)) ->
  exists v ri',
    next_version ri = Ok v /\
    version_to_list (version_string_of v) = Ok v /\
    promote new_hash ri = Ok ri'.
Proof.
  intros Hlatest Hl Hkeys.
  destruct (version_to_list_length _ _ Hl) as [Hne _].
  destruct (nonempty_last l Hne) as (init & x & E).
  assert (Hv : next_version ri = Ok (init ++ [x + 1])%list).
  { unfold next_version. rewrite Hlatest. cbn [rbind]. rewrite Hl. cbn [rbind].
    rewrite E. apply incr_last_app. }
  set (v := (init ++ [x + 1])%list) in *.
  destruct (next_version_round_trip ri v Hv) as [_ Hrt].
  assert (Hsort : exists d,
             sort_releases (releases (add_release (version_string_of v) new_hash ri))
             = Ok d).
  { apply sort_releases_succeeds_aux. cbn [add_release releases].
    apply Forall_forall. intros k Hk. apply keys_dict_set in Hk as [->|Hk].
    - eauto.
    - rewrite Forall_forall in Hkeys. now apply Hkeys. }
  destruct Hsort as [d Hd].
  exists v. eexists. split; [exact Hv|]. split; [exact Hrt|].
  unfold promote, record_release. rewrite Hv. cbn [rbind]. cbv zeta.
  rewrite Hd. reflexivity.
Qed.

Lemma promote_succeeds_witness :
  exists v ri',
    next_version registry_asserts = Ok v /\
    version_to_list (version_string_of v) = Ok v /\
    promote "def" registry_asserts = Ok ri'.
Proof.
  apply (promote_succeeds registry_asserts "1.0.0" "def" [1; 0; 0]);
    try reflexivity.
  repeat constructor; simpl; eexists; reflexivity.
Defined.

(** ** What a successful run leaves *)

Lemma length_dict_set (k v : string) (d : dict) :
  List.length (dict_set k v d)
  = if existsb (String.eqb k) (keys d) then List.length d else S (List.length d).
Proof.
  induction d as [|[k0 v0] d IH]; simpl; [reflexivity|].
  destruct (String.eqb k k0); simpl; [reflexivity|].
  rewrite IH. now destruct (existsb (String.eqb k) (keys d)).
Qed.

(** X14. A successful run keeps every release it found: for every key
    other than the new version the lookup in [releases] answers as before.
    The new version is a new entry, or takes the place of the entry of the
    same key: the mapping grows by one entry or keeps its size. *)
Theorem main_keeps_releases (env : Env) (args : list string) (st st' : State)
    (r : Z) (ri : ReleaseInfo) :
  main env args st = (Ok r, st') ->
  load_releases_info env (tags_file st) = Some ri ->
  dict_wf (releases ri) ->
  exists ri' new_version,
    release_info st' = Some ri' /\
    dict_get "latest" (aliases ri') = Ok new_version /\
    (forall k, k <> new_version ->
               dict_get k (releases ri') = dict_get k (releases ri)) /\
    List.length (releases ri')
    = if existsb (String.eqb new_version) (keys (releases ri))
      then List.length (releases ri) else S (List.length (releases ri)).
Proof.
  intros Hmain Hload Hwf.
  apply main_ok in Hmain
    as (out & ri0 & v & h & d & g & _ & _ & Hload0 & _ & _ & _ & Hd & _ & _ & _ & ->).
  assert (ri0 = ri) by congruence. subst ri0.
  eexists _, (version_string_of v). split; [reflexivity|].
  cbn [promoted_state release_info set_latest aliases releases add_release] in *.
  split; [apply dict_get_set_same|].
  pose proof (dict_set_wf (version_string_of v) h _ Hwf) as Hwf1.
  destruct (sort_releases_spec _ d Hwf1 Hd) as (sk & _ & Hperm & _).
  split.
  - intros k Hk. rewrite (dict_get_perm k _ d Hwf1) by now symmetry.
    now apply dict_get_set_other.
  - rewrite (Permutation_length Hperm). apply length_dict_set.
Qed.

Lemma main_keeps_releases_witness :
  exists ri' new_version,
    release_info (snd (main (demo_env registry_asserts) ["def"] (demo_state registry_asserts)))
    = Some ri' /\
    dict_get "latest" (aliases ri') = Ok new_version /\
    List.length (releases ri')
    = if existsb (String.eqb new_version) (keys (releases registry_asserts))
      then 2%nat else 3%nat.
Proof.
  destruct (main_keeps_releases (demo_env registry_asserts) ["def"]
              (demo_state registry_asserts)
              (snd (main (demo_env registry_asserts) ["def"] (demo_state registry_asserts)))
              0 registry_asserts)
    as (ri' & v & H1 & H2 & _ & H4).
  - vm_compute. reflexivity.
  - vm_compute. reflexivity.
  - unfold dict_wf. simpl. repeat constructor; simpl; intuition discriminate.
  - exists ri', v. split; [exact H1|]. split; [exact H2 | exact H4].
Defined.

(** X15. A successful run changes no alias but [latest]: the aliases keep
    their names and their order, and every other name resolves as
    before. *)
Theorem main_keeps_aliases (env : Env) (args : list string) (st st' : State)
    (r : Z) (ri : ReleaseInfo) :
  main env args st = (Ok r, st') ->
  load_releases_info env (tags_file st) = Some ri ->
  exists ri',
    release_info st' = Some ri' /\
    keys (aliases ri') = keys (aliases ri) /\
    (forall name, name <> "latest" ->
                  dict_get name (aliases ri') = dict_get name (aliases ri)).
Proof.
  intros Hmain Hload.
  apply main_ok in Hmain
    as (out & ri0 & v & h & d & g & _ & _ & Hload0 & Hv & _ & _ & _ & _ & _ & _ & ->).
  assert (ri0 = ri) by congruence. subst ri0.
  eexists. split; [reflexivity|].
  cbn [set_latest aliases releases add_release].
  split.
  - apply keys_dict_set_present. unfold next_version in Hv.
    destruct (dict_get "latest" (aliases ri)) as [latest|] eqn:E; [|discriminate].
    apply dict_get_Ok in E. now apply (in_map fst) in E.
  - intros name Hname. now apply dict_get_set_other.
Qed.

Lemma main_keeps_aliases_witness :
  exists ri',
    release_info (snd (main (demo_env registry_stable) ["def"] (demo_state registry_stable)))
    = Some ri' /\
    keys (aliases ri') = ["latest"; "stable"] /\
    dict_get "stable" (aliases ri') = Ok "0.9.0".
Proof.
  destruct (main_keeps_aliases (demo_env registry_stable) ["def"]
              (demo_state registry_stable)
              (snd (main (demo_env registry_stable) ["def"] (demo_state registry_stable)))
              0 registry_stable)
    as (ri' & H1 & H2 & H3).
  - vm_compute. reflexivity.
  - vm_compute. reflexivity.
  - exists ri'. repeat split; [exact H1 | exact H2 |].
    rewrite H3; [reflexivity | discriminate].
Defined.

(** X16. A successful run returns zero and leaves exactly one new branch,
    checked out and not among the branches before, and exactly one new
    commit, on that branch, whose message is the new value of
    [aliases["latest"]].  The registry file holds the serialised registry
    of the memory followed by a newline, and the hook ran on that file. *)
Theorem main_commits_once (env : Env) (args : list string) (st st' : State) (r : Z) :
  main env args st = (Ok r, st') ->
  r = 0 /\
  branches st' = HEAD st' :: branches st /\
  ~ In (HEAD st') (branches st) /\
  exists ri' new_version content,
    release_info st' = Some ri' /\
    dict_get "latest" (aliases ri') = Ok new_version /\
    tags_file st' = json_dumps env ri' ++ newline /\
    update_bazel_workspace env (tags_file st') = Some (bazel_workspace st') /\
    commits st' = (HEAD st', new_version, content) :: commits st.
Proof.
  intros Hmain.
  apply main_ok in Hmain
    as (out & ri & v & h & d & g & _ & _ & _ & _ & Hfree & _ & _ & Hg & _ & -> & ->).
  cbv zeta in Hg. cbn [promoted_state branches HEAD].
  split; [reflexivity|]. split; [reflexivity|].
  split; [now apply not_In_existsb|].
  eexists _, (version_string_of v), _. split; [reflexivity|].
  cbn [set_latest aliases tags_file bazel_workspace index commits].
  split; [apply dict_get_set_same|]. repeat split. exact Hg.
Qed.

Lemma main_commits_once_witness :
  branches (snd (main (demo_env registry_1_0_0) ["def"] (demo_state registry_1_0_0)))
  = HEAD (snd (main (demo_env registry_1_0_0) ["def"] (demo_state registry_1_0_0)))
    :: ["main"].
Proof.
  destruct (main_commits_once (demo_env registry_1_0_0) ["def"] (demo_state registry_1_0_0)
              (snd (main (demo_env registry_1_0_0) ["def"] (demo_state registry_1_0_0))) 0)
    as (_ & H1 & _).
  - vm_compute. reflexivity.
  - exact H1.
Defined.

(** X17. Promotions chain: the registry a successful run leaves can be
    promoted again, and the next version it then computes is the version
    just released with its last number raised by one. *)
Theorem main_next_version (env : Env) (args : list string) (st st' : State)
    (r : Z) (ri : ReleaseInfo) :
  main env args st = (Ok r, st') ->
  load_releases_info env (tags_file st) = Some ri ->
  exists v init x ri',
    next_version ri = Ok v /\
    v = (init ++ [x])%list /\
    release_info st' = Some ri' /\
    next_version ri' = Ok (init ++ [x + 1])%list.
Proof.
  intros Hmain Hload.
  apply main_ok in Hmain
    as (out & ri0 & v & h & d & g & _ & _ & Hload0 & Hv & _ & _ & _ & _ & _ & _ & ->).
  assert (ri0 = ri) by congruence. subst ri0.
  destruct (next_version_round_trip ri v Hv) as [Hne Hrt].
  destruct (nonempty_last v Hne) as (init & x & E).
  eexists v, init, x, _. split; [exact Hv|]. split; [exact E|].
  split; [reflexivity|].
  unfold next_version. cbn [set_latest aliases].
  rewrite dict_get_set_same. cbn [rbind]. rewrite Hrt. cbn [rbind].
  rewrite E. apply incr_last_app.
Qed.

Lemma main_next_version_witness :
  exists ri',
    release_info (snd (main (demo_env registry_1_0_0) ["def"] (demo_state registry_1_0_0)))
    = Some ri' /\
    next_version ri' = Ok [1; 0; 2].
Proof.
  destruct (main_next_version (demo_env registry_1_0_0) ["def"] (demo_state registry_1_0_0)
              (snd (main (demo_env registry_1_0_0) ["def"] (demo_state registry_1_0_0)))
              0 registry_1_0_0)
    as (v & init & x & ri' & H1 & H2 & H3 & H4).
  - vm_compute. reflexivity.
  - vm_compute. reflexivity.
  - exists ri'. split; [exact H3|].
    assert (E : v = [1; 0; 1]) by (vm_compute in H1; congruence).
    rewrite E in H2.
    assert (E2 : (init ++ [x])%list = ([1; 0] ++ [1])%list) by (symmetry; exact H2).
    apply app_inj_tail in E2 as [-> ->]. exact H4.
Defined.

Lemma sort_releases_strongly_sorted (d d' : dict) :
  dict_wf d -> sort_releases d = Ok d' ->
  exists vs : list (list Z),
    versions_of d' = Ok vs /\
    StronglySorted (fun a b => list_lt a b = false) vs /\
    Permutation d' d.
Proof.
  intros Hwf H.
  destruct (sort_releases_spec d d' Hwf H) as (sk & _ & Hperm & Hvs & Hsorted).
  exists (rev (map fst sk)). split; [exact Hvs|]. split; [|exact Hperm].
  apply (StronglySorted_rev (fun a b => list_lt b a = false)).
  apply StronglySorted_map. exact Hsorted.
Qed.

Lemma Forall2_In_l {A B} (R : A -> B -> Prop) (l : list A) (l' : list B) (x : A) :
  Forall2 R l l' -> In x l -> exists y, In y l' /\ R x y.
Proof.
  induction 1 as [|a b l l' Hab Hl IH]; simpl; [tauto|].
  intros [->|Hin]; [eauto|].
  destruct (IH Hin) as (y & Hy & Hxy). eauto.
Qed.

Lemma dict_wf_unique (d : dict) (k a b : string) :
  dict_wf d -> In (k, a) d -> In (k, b) d -> a = b.
Proof.
  intros Hwf Ha Hb.
  pose proof (dict_get_In k a d Hwf Ha) as Ea.
  pose proof (dict_get_In k b d Hwf Hb) as Eb. congruence.
Qed.

(** X18. When the new version is above the version of every other release
    key, a successful run puts the new release first in [releases]. *)
Theorem main_newest_first (env : Env) (args : list string) (st st' : State)
    (r : Z) (ri : ReleaseInfo) (v : list Z) :
  main env args st = (Ok r, st') ->
  load_releases_info env (tags_file st) = Some ri ->
  dict_wf (releases ri) ->
  next_version ri = Ok v ->
  (forall k kv, In k (keys (releases ri)) -> k <> version_string_of v ->
                version_to_list k = Ok kv -> list_lt kv v = true) ->
  exists ri' new_hash rest,
    release_info st' = Some ri' /\
    releases ri' = (version_string_of v, new_hash) :: rest.
Proof.
  intros Hmain Hload Hwf Hv Hnewest.
  apply main_ok in Hmain
    as (out & ri0 & v0 & h & d & g & _ & _ & Hload0 & Hv0 & _ & _ & Hd & _ & _ & _ & ->).
  assert (ri0 = ri) by congruence. subst ri0.
  assert (v0 = v) by congruence. subst v0.
  destruct (next_version_round_trip ri v Hv) as [_ Hrt].
  cbn [add_release releases] in Hd.
  pose proof (dict_set_wf (version_string_of v) h _ Hwf) as Hwf1.
  destruct (sort_releases_strongly_sorted _ d Hwf1 Hd) as (vs & Hvs & Hsorted & Hperm).
  assert (Hwfd : dict_wf d).
  { unfold dict_wf, keys in *. revert Hwf1. apply Permutation_NoDup.
    apply Permutation_map. now symmetry. }
  assert (Hnew : In (version_string_of v, h) d).
  { apply (Permutation_in _ (Permutation_sym Hperm)). apply dict_set_In. }
  unfold versions_of in Hvs. apply comprehension_Forall2 in Hvs.
  eexists _, h. cbn [promoted_state release_info set_latest releases].
  destruct Hvs as [|[k0 x0] kv0 rest vs' Hk0 Hrest]; [destruct Hnew|].
  exists rest. split; [reflexivity|].
  assert (Ehead : (k0, x0) = (version_string_of v, h)); [|now rewrite Ehead].
  destruct Hnew as [E|Hin]; [exact E|]. exfalso.
  destruct (String.eqb_spec k0 (version_string_of v)) as [Ek|Hne].
  - (* the same key twice *)
    subst k0. unfold dict_wf in Hwfd. simpl in Hwfd.
    inversion Hwfd as [|? ? Hnotin _]; subst. apply Hnotin.
    now apply (in_map fst) in Hin.
  - (* an older key at the head *)
    assert (Hold : In k0 (keys (releases ri))).
    { assert (Hin0 : In (k0, x0) (dict_set (version_string_of v) h (releases ri)))
        by (apply (Permutation_in _ Hperm); now left).
      apply dict_set_elements in Hin0 as [E|Hin0]; [congruence|].
      now apply (in_map fst) in Hin0. }
    unfold pair_key in Hk0. cbn [fst] in Hk0.
    pose proof (Hnewest k0 kv0 Hold Hne Hk0) as Hlt.
    destruct (Forall2_In_l _ _ _ _ Hrest Hin) as (w & Hw & Ew).
    unfold pair_key in Ew. cbn [fst] in Ew.
    assert (w = v) by congruence. subst w.
    apply StronglySorted_inv in Hsorted as [_ Hhead].
    rewrite Forall_forall in Hhead. specialize (Hhead v Hw). congruence.
Qed.

Lemma main_newest_first_witness :
  exists ri' new_hash rest,
    release_info (snd (main (demo_env registry_asserts) ["def"] (demo_state registry_asserts)))
    = Some ri' /\
    releases ri' = ("1.0.1", new_hash) :: rest.
Proof.
  apply (main_newest_first (demo_env registry_asserts) ["def"] (demo_state registry_asserts)
              (snd (main (demo_env registry_asserts) ["def"] (demo_state registry_asserts)))
              0 registry_asserts [1; 0; 1]).
  - vm_compute. reflexivity.
  - vm_compute. reflexivity.
  - unfold dict_wf. simpl. repeat constructor; simpl; intuition discriminate.
  - reflexivity.
  - intros k kv Hk _ Hparse. simpl in Hk.
    destruct Hk as [<-|[<-|[]]]; vm_compute in Hparse; injection Hparse as <-;
      reflexivity.
Defined.

Lemma next_version_raises (ri : ReleaseInfo) (e : exn) :
  next_version ri = Raise e -> e = KeyError \/ e = ValueError.
Proof.
  unfold next_version.
  destruct (dict_get "latest" (aliases ri)) as [latest|e'] eqn:El; simpl.
  - destruct (version_to_list latest) as [l|e'] eqn:Ev; simpl.
    + intros H. apply incr_last_raises in H. subst l.
      now destruct (version_to_list_length latest [] Ev).
    + intros H. injection H as <-. right. now apply (version_to_list_raises_aux latest).
  - intros H. injection H as <-. left. now apply dict_get_Raise in El.
Qed.

(** X19. The status the script ends with is zero or one: zero exactly when
    [main] returns, and then it returns zero; one for the dirty tree and
    for every exception that ends the run. *)
Theorem main_exit_code (env : Env) (args : list string) (st : State) :
  let r := fst (main env args st) in
  (exit_code r = 0 \/ exit_code r = 1) /\
  (exit_code r = 0 <-> exists st', main env args st = (Ok 0, st')).
Proof.
  cbv zeta.
  destruct (main env args st) as [[r|e] st'] eqn:E; cbn [fst exit_code].
  - pose proof E as E'. apply main_ok in E'
      as (? & ? & ? & ? & ? & ? & _ & _ & _ & _ & _ & _ & _ & _ & _ & -> & _).
    split; [now left|]. split; [eauto | reflexivity].
  - assert (He : exit_code (Raise e) = 1).
    { revert E. unfold_main.
      destruct (git_status_porcelain env) as [out|];
        [|intros H; injection H as <- _; reflexivity].
      destruct (is_empty (strip is_bytes_space out)); cbn [negb];
        [|intros H; injection H as <- _; reflexivity].
      destruct (load_releases_info env (tags_file st)) as [ri|];
        [|intros H; injection H as <- _; reflexivity].
      destruct (next_version ri) as [v|e1] eqn:Hv;
        [|intros H; injection H as <- _;
          destruct (next_version_raises _ _ Hv) as [-> | ->]; reflexivity].
      project_state.
      destruct (existsb _ (branches st));
        [intros H; injection H as <- _; reflexivity|].
      destruct (new_hash_of args _) as [h|e2] eqn:Hh.
      2:{ intros H. injection H as <- _.
          destruct args; [|discriminate].
          unfold new_hash_of, emsdk_get_emscripten_releases_tot in Hh.
          destruct (get_emscripten_releases_tot env); [discriminate|].
          injection Hh as <-. reflexivity. }
      destruct (sort_releases _) as [d|e3] eqn:Hd.
      2:{ intros H. injection H as <- _.
          destruct (sort_releases_succeeds_iff
                      (releases (add_release (version_string_of v) h ri))) as [_ Hval].
          rewrite (Hval _ Hd). reflexivity. }
      project_state.
      destruct (update_bazel_workspace env _) as [g|];
        [|intros H; injection H as <- _; reflexivity].
      destruct (git_commit_ok env);
        [discriminate | intros H; injection H as <- _; reflexivity]. }
    cbn [exit_code] in He. split; [now right|].
    split; [intros H; rewrite He in H; discriminate | intros [? H]; discriminate].
Qed.

Lemma main_exit_code_witness :
  exit_code (fst (main (demo_env registry_1_0_0) ["def"] (demo_state registry_1_0_0))) = 0.
Proof.
  apply (main_exit_code (demo_env registry_1_0_0) ["def"] (demo_state registry_1_0_0)).
  eexists. vm_compute. reflexivity.
Defined.

(** * Properties of the packaging script *)

Module UpdatePythonFacts.
Import UpdatePython.

Ltac unfold_py :=
  unfold build_python, platform_setup, make_python_patch, unzip_cmd, zip_cmd,
    sevenzip_path, check_call, call, attempt, putenv, print, path_exists, path_isfile,
    path_isdir, glob, local, try_pass, pbind, pret, praise.

Ltac git_only :=
  rewrite <- ?List.app_assoc; eexists _, _;
  split; [reflexivity|]; split; [repeat constructor|];
  intros Hgit;
  first [ reflexivity
        | rewrite Hgit in *;
          first [ discriminate
                | match goal with
                  | H : Some _ = Some _ |- _ => injection H as <-; discriminate
                  end ] ].

(** X20. Off macOS [build_python] cannot succeed: [min_macos_version] is
    assigned on macOS only, so after the clone (when there is no [cpython]
    directory) and the checkout it stops on [UnboundLocalError], or earlier
    if [git] fails.  Nothing but [git] is ever run, and the same holds of
    [main] on a platform that is neither Windows nor macOS. *)
Theorem build_python_needs_macos (h : Host) (tr : list event) :
  String.prefix "darwin" (sys_platform h) = false ->
  (exists e evs,
      build_python h tr = (PRaise e, (tr ++ evs)%list) /\
      Forall is_git evs /\
      ((forall tr' argv cwd, spawn h tr' ("git" :: argv) cwd = Some 0) ->
       e = UnboundLocalError)) /\
  (String.prefix "win" (sys_platform h) = false ->
   exists e evs, main h tr = (PRaise e, (tr ++ evs)%list) /\ Forall is_git evs).
Proof.
  intros Hd.
  assert (B : exists e evs,
             build_python h tr = (PRaise e, (tr ++ evs)%list) /\
             Forall is_git evs /\
             ((forall tr' argv cwd, spawn h tr' ("git" :: argv) cwd = Some 0) ->
              e = UnboundLocalError)).
  { unfold_py. rewrite Hd.
    destruct (os_path_exists h tr "cpython"); cbn [negb].
    - destruct (spawn h tr ["git"; "checkout"; "v" ++ version] (Some "cpython"))
        as [status|] eqn:E1; [destruct (status =? 0) eqn:Z1|]; git_only.
    - destruct (spawn h tr ["git"; "clone"; "https://github.com/python/cpython"] None)
        as [status|] eqn:E0; [destruct (status =? 0) eqn:Z0|]; [|git_only..].
      destruct (spawn h _ ["git"; "checkout"; "v" ++ version] (Some "cpython"))
        as [status1|] eqn:E1; [destruct (status1 =? 0) eqn:Z1|]; git_only. }
  split; [exact B|].
  intros Hw. destruct B as (e & evs & Hb & Hg & _).
  exists e, evs. split; [|exact Hg].
  unfold main, pbind. rewrite Hw, Hb. reflexivity.
Qed.

Lemma build_python_needs_macos_witness :
  main (demo_host "linux" "x86_64") []
  = (PRaise UnboundLocalError,
     [Call ["git"; "clone"; "https://github.com/python/cpython"] None None;
      Call ["git"; "checkout"; "v3.9.2"] (Some "cpython") None]).
Proof.
  destruct (build_python_needs_macos (demo_host "linux" "x86_64") [] eq_refl)
    as [_ H].
  destruct (H eq_refl) as (e & evs & Hm & _).
  vm_compute. reflexivity.
Defined.

(** X21. On macOS with a machine that is neither [x86_64] nor [arm64],
    [prefix] is never assigned: the exception of its first use is
    swallowed by the [try], so nothing is removed, and its next use stops
    [build_python] on [UnboundLocalError] right after the [brew install]
    (or on the failure of [brew]). *)
Theorem build_python_unknown_machine (h : Host) (tr : list event) :
  String.prefix "darwin" (sys_platform h) = true ->
  platform_machine h <> "x86_64" ->
  platform_machine h <> "arm64" ->
  build_python h tr
  = (PRaise match spawn h tr ["brew"; "install"; "openssl"; "pkg-config"] None with
            | Some status => if status =? 0 then UnboundLocalError else CalledProcessError
            | None => OSError
            end,
     (tr ++ [brew_install])%list).
Proof.
  intros Hd H1 H2. unfold_py. rewrite Hd.
  apply String.eqb_neq in H1. apply String.eqb_neq in H2. rewrite H1, H2.
  destruct (spawn h tr _ None) as [status|]; [|reflexivity].
  destruct (status =? 0); reflexivity.
Qed.

Lemma build_python_unknown_machine_witness :
  build_python (demo_host "darwin" "ppc") []
  = (PRaise UnboundLocalError, [brew_install]).
Proof.
  apply (build_python_unknown_machine (demo_host "darwin" "ppc") []);
    [reflexivity | discriminate | discriminate].
Defined.

(** X22. The two libraries are removed inside one [try]: when the removal
    of [libssl.dylib] fails, the removal of [libcrypto.dylib] is not
    attempted, the failure is swallowed and the setup goes on to set
    [PKG_CONFIG_PATH]. *)
Theorem platform_setup_skips_libcrypto (h : Host) (tr : list event) (p m : string) :
  String.prefix "darwin" (sys_platform h) = true ->
  (platform_machine h = "x86_64" /\ p = "/usr/local" /\ m = "10.11" \/
   platform_machine h = "arm64" /\ p = "/opt/homebrew" /\ m = "11.0") ->
  spawn h tr ["brew"; "install"; "openssl"; "pkg-config"] None = Some 0 ->
  fails h (tr ++ [brew_install])
        (Remove (os_path_join h [p; "opt"; "openssl"; "lib"; "libssl.dylib"])) = true ->
  platform_setup h tr
  = (POk ("macos-" ++ platform_machine h, Some p, Some m),
     (tr ++ [brew_install;
             Remove (os_path_join h [p; "opt"; "openssl"; "lib"; "libssl.dylib"]);
             Putenv "PKG_CONFIG_PATH"
                    (os_path_join h [p; "opt"; "openssl"; "lib"; "pkgconfig"])])%list).
Proof.
  intros Hd Hm Hbrew Hfail. unfold_py. rewrite Hd, Hbrew. cbn [Z.eqb].
  destruct Hm as [(Em & -> & ->)|(Em & -> & ->)]; rewrite Em; cbn [String.eqb Ascii.eqb Bool.eqb];
    unfold brew_install in Hfail; rewrite Hfail; rewrite <- !List.app_assoc; reflexivity.
Qed.

Lemma platform_setup_skips_libcrypto_witness :
  platform_setup demo_failing_host []
  = (POk ("macos-arm64", Some "/opt/homebrew", Some "11.0"),
     [brew_install; Remove "/opt/homebrew/opt/openssl/lib/libssl.dylib";
      Putenv "PKG_CONFIG_PATH" "/opt/homebrew/opt/openssl/lib/pkgconfig"]).
Proof.
  apply (platform_setup_skips_libcrypto demo_failing_host [] "/opt/homebrew" "11.0");
    try reflexivity. right. repeat split.
Defined.

(** ** What a computation adds to the trace *)

Lemma emits_pret {A} (Q : event -> Prop) (a : A) : emits Q (pret a).
Proof. intros tr. exists []. split; [now rewrite List.app_nil_r | constructor]. Qed.

Lemma emits_praise {A} (Q : event -> Prop) (e : perr) : emits Q (praise (A := A) e).
Proof. intros tr. exists []. split; [now rewrite List.app_nil_r | constructor]. Qed.

Lemma emits_pbind {A B} (Q : event -> Prop) (c : P A) (k : A -> P B) :
  emits Q c -> (forall a, emits Q (k a)) -> emits Q (pbind c k).
Proof.
  intros Hc Hk tr. unfold pbind. destruct (Hc tr) as (evs & E & F).
  destruct (c tr) as [[a|e] tr1]; simpl in E; subst tr1.
  - destruct (Hk a (tr ++ evs)%list) as (evs' & E' & F').
    exists (evs ++ evs')%list. rewrite E', List.app_assoc. split; [reflexivity|].
    apply Forall_app. now split.
  - exists evs. now split.
Qed.

Lemma emits_event {A} (Q : event -> Prop) (e : event) (r : list event -> presult A) :
  Q e -> emits Q (fun tr => (r tr, (tr ++ [e])%list)).
Proof. intros H tr. exists [e]. split; [reflexivity | now constructor]. Qed.

Lemma emits_query {A} (Q : event -> Prop) (f : list event -> A) :
  emits Q (fun tr => (POk (f tr), tr)).
Proof. intros tr. exists []. split; [now rewrite List.app_nil_r | constructor]. Qed.

Lemma emits_print (Q : event -> Prop) (line : string) :
  Q (Print line) -> emits Q (print line).
Proof. intros H. now apply (emits_event Q (Print line) (fun _ => POk tt)). Qed.

Lemma emits_attempt (h : Host) (Q : event -> Prop) (e : event) :
  Q e -> emits Q (attempt h e).
Proof.
  intros H tr. exists [e]. unfold attempt.
  destruct (fails h tr e); (split; [reflexivity | now constructor]).
Qed.

Lemma emits_call (h : Host) (Q : event -> Prop) argv cwd env :
  Q (Call argv cwd env) -> emits Q (call h argv cwd env).
Proof.
  intros H tr. exists [Call argv cwd env]. unfold call.
  destruct (spawn h tr argv cwd); (split; [reflexivity | now constructor]).
Qed.

Lemma emits_check_call (h : Host) (Q : event -> Prop) argv cwd env :
  Q (Call argv cwd env) -> emits Q (check_call h argv cwd env).
Proof.
  intros H. unfold check_call. apply emits_pbind; [now apply emits_call|].
  intros status. destruct (status =? 0); [apply emits_pret | apply emits_praise].
Qed.

Lemma emits_sevenzip_path (h : Host) (Q : event -> Prop) : emits Q (sevenzip_path h).
Proof.
  unfold sevenzip_path. destruct (getenv_ProgramFiles h);
    [apply emits_pret | apply emits_praise].
Qed.

Lemma emits_unzip_cmd (h : Host) (Q : event -> Prop) : emits Q (unzip_cmd h).
Proof.
  unfold unzip_cmd. apply emits_pbind; [apply emits_sevenzip_path|]. intros s.
  apply emits_pbind; [apply emits_query|]. intros b. apply emits_pret.
Qed.

Lemma emits_zip_cmd (h : Host) (Q : event -> Prop) : emits Q (zip_cmd h).
Proof.
  unfold zip_cmd. apply emits_pbind; [apply emits_sevenzip_path|]. intros s.
  apply emits_pbind; [apply emits_query|]. intros b. apply emits_pret.
Qed.

(** Without [ProgramFiles] neither command line can be computed. *)
Lemma unzip_cmd_no_ProgramFiles (h : Host) (tr : list event) :
  getenv_ProgramFiles h = None ->
  unzip_cmd h tr = (PRaise TypeError, tr) /\ zip_cmd h tr = (PRaise TypeError, tr).
Proof.
  intros H. unfold unzip_cmd, zip_cmd, sevenzip_path, pbind, praise.
  now rewrite H.
Qed.

(** The part of [make_python_patch] after the two downloads adds no
    download. *)
Ltac emits_step :=
  first [ apply emits_pret | apply emits_praise
        | apply emits_print; simpl; tauto
        | apply emits_attempt; simpl; tauto
        | apply emits_check_call; simpl; tauto
        | apply emits_call; simpl; tauto
        | apply emits_unzip_cmd | apply emits_zip_cmd
        | apply emits_query
        | apply emits_pbind; [|intros ?] ].

(** X23. [make_python_patch] downloads only what is missing: when both
    archives are already there, its first step is the creation of
    [python-embed], and the run contains no download at all. *)
Theorem make_python_patch_no_download (h : Host) (arch : string) (tr : list event) :
  os_path_exists h tr (pywin32_filename_of arch) = true ->
  os_path_exists h tr (filename_of arch) = true ->
  exists evs,
    snd (make_python_patch h arch tr) = (tr ++ Mkdir "python-embed" :: evs)%list /\
    Forall (fun e => ~ is_download e) evs.
Proof.
  intros H1 H2.
  unfold make_python_patch. cbv zeta.
  unfold pbind at 1. unfold path_exists at 1. rewrite H1. cbn [negb].
  unfold pbind at 1. unfold pret at 1.
  unfold pbind at 1. unfold path_exists at 1. rewrite H2. cbn [negb].
  unfold pbind at 1. unfold pret at 1.
  unfold pbind at 1. unfold attempt at 1.
  destruct (fails h tr (Mkdir "python-embed")).
  - exists []. split; [reflexivity | constructor].
  - match goal with
    | |- exists evs, snd (?k ?t) = _ /\ _ =>
        assert (E : emits (fun e => ~ is_download e) k)
    end.
    { repeat emits_step; try (simpl; tauto).
      match goal with
      | |- emits _ (if ?b then _ else _) => destruct b; emits_step
      end. }
    destruct (E (tr ++ [Mkdir "python-embed"])%list) as (evs & Ee & Fe).
    exists evs. rewrite Ee, <- List.app_assoc. split; [reflexivity | exact Fe].
Qed.

Lemma make_python_patch_no_download_witness :
  exists evs,
    snd (make_python_patch demo_stocked_host "amd64" []) = Mkdir "python-embed" :: evs /\
    Forall (fun e => ~ is_download e) evs.
Proof.
  apply (make_python_patch_no_download demo_stocked_host "amd64" []); reflexivity.
Defined.

(** X24. [make_python_patch] needs [ProgramFiles]: when the variable is
    not set, the path of 7-Zip cannot be built and the function stops on
    [TypeError] (or earlier on a failed download or [mkdir]) before it has
    run any program, also where [unzip] and [zip] would have been used. *)
Theorem make_python_patch_needs_ProgramFiles (h : Host) (arch : string) (tr : list event) :
  getenv_ProgramFiles h = None ->
  exists e evs,
    make_python_patch h arch tr = (PRaise e, (tr ++ evs)%list) /\
    (e = TypeError \/ e = OSError) /\
    Forall (fun ev => ~ is_call ev) evs.
Proof.
  intros Hpf. unfold_py. rewrite Hpf.
  repeat match goal with
         | |- context [os_path_exists h ?t ?p] => destruct (os_path_exists h t p); cbn [negb]
         | |- context [fails h ?t ?e] => destruct (fails h t e)
         end;
    rewrite <- ?List.app_assoc; eexists _, _;
    (split; [reflexivity|]); (split; [tauto|]);
    repeat constructor; simpl; tauto.
Qed.

Lemma make_python_patch_needs_ProgramFiles_witness :
  exists e evs,
    make_python_patch (demo_host "linux" "x86_64") "win32" [] = (PRaise e, evs) /\
    (e = TypeError \/ e = OSError).
Proof.
  destruct (make_python_patch_needs_ProgramFiles (demo_host "linux" "x86_64") "win32" []
              eq_refl) as (e & evs & H1 & H2 & _).
  exists e, evs. split; [exact H1 | exact H2].
Defined.

(** ** Runs on a cooperative host *)

Lemma ends_with_pbind {A B} (c : P A) (k : A -> P B) (tail : list event) :
  ends_with c [] -> (forall a, ends_with (k a) tail) -> ends_with (pbind c k) tail.
Proof.
  intros Hc Hk tr. unfold pbind.
  destruct (Hc tr) as (a & evs & ->).
  destruct (Hk a (tr ++ evs ++ [])%list) as (b & evs' & ->).
  exists b, (evs ++ evs')%list. rewrite List.app_nil_r, <- !List.app_assoc. reflexivity.
Qed.

Lemma ends_with_weaken {A} (c : P A) (tail : list event) :
  ends_with c tail -> ends_with c [].
Proof.
  intros H tr. destruct (H tr) as (a & evs & ->).
  exists a, (evs ++ tail)%list. now rewrite List.app_nil_r.
Qed.

Lemma ends_with_pret {A} (a : A) : ends_with (pret a) [].
Proof. intros tr. exists a, []. simpl. now rewrite List.app_nil_r. Qed.

Lemma ends_with_query {A} (f : list event -> A) : ends_with (fun tr => (POk (f tr), tr)) [].
Proof. intros tr. exists (f tr), []. simpl. now rewrite List.app_nil_r. Qed.

Lemma ends_with_print (line : string) : ends_with (print line) [Print line].
Proof. intros tr. exists tt, []. reflexivity. Qed.

Lemma ends_with_putenv (name value : string) :
  ends_with (putenv name value) [Putenv name value].
Proof. intros tr. exists tt, []. reflexivity. Qed.

Section Cooperative.
Variable h : Host.
Hypothesis Hcoop : cooperative h.

Lemma ends_with_attempt (e : event) : ends_with (attempt h e) [e].
Proof.
  intros tr. exists tt, []. unfold attempt. destruct Hcoop as [_ Hf]. now rewrite Hf.
Qed.

Lemma ends_with_call argv cwd env : ends_with (call h argv cwd env) [Call argv cwd env].
Proof.
  intros tr. exists 0, []. unfold call. destruct Hcoop as [Hs _]. now rewrite Hs.
Qed.

Lemma call_returns_zero argv cwd env tr :
  call h argv cwd env tr = (POk 0, (tr ++ [Call argv cwd env])%list).
Proof. unfold call. destruct Hcoop as [Hs _]. now rewrite Hs. Qed.

Lemma ends_with_check_call argv cwd env :
  ends_with (check_call h argv cwd env) [Call argv cwd env].
Proof.
  intros tr. exists tt, []. unfold check_call, pbind. now rewrite call_returns_zero.
Qed.

Lemma ends_with_for_each {A} (l : list A) (body : A -> P unit) :
  (forall x, ends_with (body x) []) -> ends_with (for_each l body) [].
Proof.
  intros Hb. induction l as [|x l IH]; simpl; [apply ends_with_pret|].
  apply ends_with_pbind; [apply Hb | intros _; exact IH].
Qed.
End Cooperative.

Lemma ends_with_try_pass (body : P unit) :
  ends_with body [] -> ends_with (try_pass body) [].
Proof.
  intros H tr. unfold try_pass. destruct (H tr) as ([] & evs & ->). eauto.
Qed.

Ltac coop Hcoop :=
  repeat first
    [ apply ends_with_pret
    | apply ends_with_query
    | apply (ends_with_check_call _ Hcoop)
    | apply (ends_with_weaken _ _ (ends_with_print _))
    | apply (ends_with_weaken _ _ (ends_with_putenv _ _))
    | apply (ends_with_weaken _ _ (ends_with_attempt _ Hcoop _))
    | apply (ends_with_weaken _ _ (ends_with_check_call _ Hcoop _ _ _))
    | apply (ends_with_weaken _ _ (ends_with_call _ Hcoop _ _ _))
    | apply ends_with_try_pass
    | apply ends_with_pbind; [|intros ?]
    | match goal with
      | |- ends_with (if ?b then _ else _) _ => destruct b
      | |- ends_with (for_each _ _) [] => apply (ends_with_for_each); intros ?
      | |- ends_with (local (Some ?x)) [] => apply (ends_with_pret x)
      end ].

(** On a cooperative macOS host with a known machine the setup returns
    the name of the system and both locals. *)
Lemma platform_setup_returns (h : Host) (tr : list event) (p m : string) :
  cooperative h ->
  String.prefix "darwin" (sys_platform h) = true ->
  (platform_machine h = "x86_64" /\ p = "/usr/local" /\ m = "10.11" \/
   platform_machine h = "arm64" /\ p = "/opt/homebrew" /\ m = "11.0") ->
  exists evs,
    platform_setup h tr
    = (POk ("macos-" ++ platform_machine h, Some p, Some m), (tr ++ evs)%list).
Proof.
  intros [Hs Hf] Hd Hm. unfold_py. rewrite Hd, Hs. cbn [Z.eqb].
  destruct Hm as [(Em & -> & ->)|(Em & -> & ->)]; rewrite Em;
    cbn [String.eqb Ascii.eqb Bool.eqb]; rewrite !Hf;
    rewrite <- !List.app_assoc; eexists; reflexivity.
Qed.

(** X25. On a cooperative macOS host with one of the two known machines,
    [build_python] returns, and the last thing it does is to run the
    upload, without overwriting, of the archive named after the version,
    the revision and the machine. *)
Theorem build_python_uploads (h : Host) (tr : list event) :
  cooperative h ->
  String.prefix "darwin" (sys_platform h) = true ->
  platform_machine h = "x86_64" \/ platform_machine h = "arm64" ->
  let tarball :=
    "python-" ++ version ++ "-" ++ revision ++ "-macos-" ++ platform_machine h ++ ".tar.gz" in
  let upload := Call ["gsutil"; "cp"; "-n"; tarball; upload_base ++ tarball] None None in
  exists evs, build_python h tr = (POk tt, (tr ++ evs ++ [upload])%list).
Proof.
  intros Hcoop Hd Hm tarball upload.
  assert (S : exists p m evs,
             platform_setup h tr
             = (POk ("macos-" ++ platform_machine h, Some p, Some m), (tr ++ evs)%list)).
  { destruct Hm as [Hm|Hm].
    - exists "/usr/local", "10.11". apply platform_setup_returns; tauto.
    - exists "/opt/homebrew", "11.0". apply platform_setup_returns; tauto. }
  destruct S as (p & m & evs0 & S).
  unfold build_python. unfold pbind at 1. rewrite S. cbv beta iota zeta.
  match goal with
  | |- exists evs, ?k ?t = _ => assert (E : ends_with k [upload])
  end.
  { subst upload tarball. coop Hcoop. }
  destruct (E (tr ++ evs0)%list) as ([] & evs & ->).
  exists (evs0 ++ evs)%list. rewrite <- !List.app_assoc. reflexivity.
Qed.

Lemma build_python_uploads_witness :
  exists evs,
    build_python (demo_host "darwin" "arm64") []
    = (POk tt,
       (evs ++ [Call ["gsutil"; "cp"; "-n"; "python-3.9.2-1-macos-arm64.tar.gz";
                      "gs://webassembly/emscripten-releases-builds/deps/python-3.9.2-1-macos-arm64.tar.gz"]
                     None None])%list).
Proof.
  apply (build_python_uploads (demo_host "darwin" "arm64") []).
  - split; reflexivity.
  - reflexivity.
  - right. reflexivity.
Defined.

(** ** Runs on a Windows host *)

Lemma raises_after_pbind {A B} (c : P A) (k : A -> P B) (e : perr) (Q : event -> Prop) :
  ends_with c [] -> (forall a, raises_after (k a) e Q) -> raises_after (pbind c k) e Q.
Proof.
  intros Hc Hk tr. unfold pbind.
  destruct (Hc tr) as (a & evs & ->).
  destruct (Hk a (tr ++ evs ++ [])%list) as (evs' & ev & -> & Hq).
  exists (evs ++ evs')%list, ev. rewrite List.app_nil_r, <- !List.app_assoc.
  split; [reflexivity | exact Hq].
Qed.

Section Windows.
Variable h : Host.
Variable code : Z.
Hypothesis Hwin : windows_host h code.

Lemma win_attempt (e : event) : ends_with (attempt h e) [e].
Proof.
  intros tr. exists tt, []. unfold attempt.
  destruct Hwin as (_ & Hf & _). now rewrite Hf.
Qed.

Lemma win_check_call argv (dir : option string) env :
  match dir with Some d => String.eqb d "pywin32" | None => false end = false ->
  ends_with (check_call h argv dir env) [Call argv dir env].
Proof.
  intros Hdir tr. exists tt, []. unfold check_call, call, pbind.
  destruct Hwin as (_ & _ & Hs). rewrite Hs.
  destruct dir as [d|]; [rewrite Hdir|]; reflexivity.
Qed.

Lemma win_call_pywin32 argv env tr :
  call h argv (Some "pywin32") env tr
  = (POk code, (tr ++ [Call argv (Some "pywin32") env])%list).
Proof. unfold call. destruct Hwin as (_ & _ & Hs). now rewrite Hs. Qed.

Lemma win_pbind_call_pywin32 {B} argv env (k : Z -> P B) (tail : list event) :
  ends_with (k code) tail ->
  ends_with (pbind (call h argv (Some "pywin32") env) k) tail.
Proof.
  intros H tr. unfold pbind. rewrite win_call_pywin32.
  destruct (H (tr ++ [Call argv (Some "pywin32") env])%list) as (a & evs & ->).
  exists a, (Call argv (Some "pywin32") env :: evs). rewrite <- !List.app_assoc.
  reflexivity.
Qed.

Lemma win_unzip_cmd : ends_with (unzip_cmd h) [].
Proof.
  destruct Hwin as ((pf & Hpf) & _). unfold unzip_cmd, sevenzip_path. rewrite Hpf.
  intros tr. eexists _, []. unfold pbind, pret, path_isfile.
  rewrite List.app_nil_r. reflexivity.
Qed.

Lemma win_zip_cmd : ends_with (zip_cmd h) [].
Proof.
  destruct Hwin as ((pf & Hpf) & _). unfold zip_cmd, sevenzip_path. rewrite Hpf.
  intros tr. eexists _, []. unfold pbind, pret, path_isfile.
  rewrite List.app_nil_r. reflexivity.
Qed.
End Windows.

Ltac win Hwin :=
  repeat first
    [ apply ends_with_pret
    | apply ends_with_query
    | apply (win_unzip_cmd _ _ Hwin)
    | apply (win_zip_cmd _ _ Hwin)
    | apply (win_check_call _ _ Hwin); reflexivity
    | apply (ends_with_weaken _ _ (ends_with_print _))
    | apply (ends_with_weaken _ _ (win_attempt _ _ Hwin _))
    | match goal with
      | |- ends_with (check_call _ _ _ _) [] =>
          eapply ends_with_weaken; apply (win_check_call _ _ Hwin); reflexivity
      | |- ends_with (if ?b then _ else _) _ => destruct b
      | |- ends_with (pbind (call _ _ (Some "pywin32") _) _) _ =>
          apply (win_pbind_call_pywin32 _ _ Hwin); cbv beta;
          try match goal with
              | H : (_ =? 0) || (_ =? 1) = _ |- _ => rewrite H
              end
      end
    | apply ends_with_pbind; [|intros ?] ].

Lemma make_python_patch_tolerated (h : Host) (code : Z) (arch : string) :
  windows_host h code -> code = 0 \/ code = 1 ->
  ends_with (make_python_patch h arch) [upload_of arch].
Proof.
  intros Hwin Hcode. unfold make_python_patch, upload_of. cbv zeta.
  assert (Hok : (code =? 0) || (code =? 1) = true) by (destruct Hcode; subst; reflexivity).
  win Hwin.
Qed.

Lemma make_python_patch_asserts (h : Host) (code : Z) (arch : string) :
  windows_host h code -> code <> 0 -> code <> 1 ->
  raises_after (make_python_patch h arch) AssertionError in_pywin32.
Proof.
  intros Hwin H0 H1. unfold make_python_patch. cbv zeta.
  assert (Hno : (code =? 0) || (code =? 1) = false).
  { apply orb_false_iff. split; now apply Z.eqb_neq. }
  repeat (apply raises_after_pbind; [solve [win Hwin] | intros ?]).
  intros tr. unfold pbind. rewrite (win_call_pywin32 _ _ Hwin), Hno.
  eexists [], _. split; [reflexivity | exact I].
Qed.

(** X26. The status of the unpacking of pywin32 is asserted to be zero or
    one.  On a Windows host where everything else goes well, a status of
    zero or one lets [make_python_patch] return after the upload of its
    archive as its last step; any other status stops it on
    [AssertionError] right after the unpacking, before the directory [lib]
    is made and with nothing uploaded or cleaned up. *)
Theorem make_python_patch_assertion (h : Host) (code : Z) (arch : string)
    (tr : list event) :
  windows_host h code ->
  (code = 0 \/ code = 1 ->
   exists evs,
     make_python_patch h arch tr = (POk tt, (tr ++ evs ++ [upload_of arch])%list)) /\
  (code <> 0 -> code <> 1 ->
   exists evs ev,
     make_python_patch h arch tr = (PRaise AssertionError, (tr ++ evs ++ [ev])%list) /\
     in_pywin32 ev).
Proof.
  intros Hwin. split.
  - intros Hcode.
    destruct (make_python_patch_tolerated h code arch Hwin Hcode tr) as ([] & evs & ->).
    eauto.
  - intros H0 H1. apply (make_python_patch_asserts h code arch Hwin H0 H1 tr).
Qed.

Lemma demo_windows_host (code : Z) : windows_host (demo_windows code) code.
Proof. repeat split. now exists "C:/Program Files". Qed.

Lemma make_python_patch_assertion_witness :
  (exists evs,
      make_python_patch (demo_windows 1) "amd64" []
      = (POk tt, (evs ++ [upload_of "amd64"])%list)) /\
  (exists evs ev,
      make_python_patch (demo_windows 2) "amd64" []
      = (PRaise AssertionError, (evs ++ [ev])%list) /\ in_pywin32 ev).
Proof.
  split.
  - apply (make_python_patch_assertion (demo_windows 1) 1 "amd64" []).
    + apply demo_windows_host.
    + now right.
  - apply (make_python_patch_assertion (demo_windows 2) 2 "amd64" []).
    + apply demo_windows_host.
    + discriminate.
    + discriminate.
Defined.

(** X27. On Windows [main] builds and uploads the archive of [amd64] and
    then that of [win32]; on a host where everything goes well it returns
    zero, and the upload of the [win32] archive is its last step. *)
Theorem main_windows (h : Host) (code : Z) (tr : list event) :
  windows_host h code -> code = 0 \/ code = 1 ->
  String.prefix "win" (sys_platform h) = true ->
  exists evs1 evs2,
    main h tr
    = (POk 0, (tr ++ evs1 ++ [upload_of "amd64"] ++ evs2 ++ [upload_of "win32"])%list).
Proof.
  intros Hwin Hcode Hw. unfold main. rewrite Hw. cbn [for_each]. unfold pbind, pret.
  destruct (make_python_patch_tolerated h code "amd64" Hwin Hcode tr) as ([] & evs1 & ->).
  destruct (make_python_patch_tolerated h code "win32" Hwin Hcode
              (tr ++ evs1 ++ [upload_of "amd64"])%list) as ([] & evs2 & ->).
  exists evs1, evs2. rewrite <- !List.app_assoc. reflexivity.
Qed.

Lemma main_windows_witness :
  exists evs1 evs2,
    main (demo_windows 0) []
    = (POk 0, (evs1 ++ [upload_of "amd64"] ++ evs2 ++ [upload_of "win32"])%list).
Proof.
  apply (main_windows (demo_windows 0) 0 []).
  - apply demo_windows_host.
  - now left.
  - reflexivity.
Defined.

End UpdatePythonFacts.
